(** * FlowCanvas: the workflow editor of xyflow-prototype

    A shallow embedding of the React component [FlowCanvas] and of the
    handlers it registers.  The repository holds two revisions of the
    component: [src/FlowCanvas.js] and a second copy whose submit handler
    first runs [validateRequiredFields].  The handlers the two revisions
    share are embedded once; what differs lives in the modules [Canvas]
    (src/FlowCanvas.js) and [CanvasChecked] (the validating copy).

    React state is passed explicitly: every handler is a function on
    [State], the hooks' setters are the record updates [setNodes],
    [setEdges], ...  A handler that can raise returns an [Outcome]. *)

From Stdlib Require Import ZArith NArith List String Ascii Bool Lia.
From stdpp Require Import base option strings gmap list pretty.
Import ListNotations.

(** ** JavaScript values *)

(** A JS number is a binary64 float.  The component never computes with
    numbers (it stores coordinates and parses JSON), so a number is kept as
    the exact decimal [mantissa * 10 ^ exponent]. *)
Record number := { mantissa : Z; exponent : Z }.

#[local] Set Warnings "-register-all".

(** Text is a [string] holding the UTF-8 bytes of the JS string. *)
Inductive JsVal :=
| JUndefined
| JNull
| JBool (b : bool)
| JNum (n : number)
| JStr (s : string)
| JArr (items : list JsVal)
| JObj (props : list (string * JsVal)).

Inductive JsError := SyntaxError | TypeError.

Inductive Outcome (A : Type) :=
| Returns (a : A)
| Throws (e : JsError).
Arguments Returns {A} a.
Arguments Throws {A} e.

(** [v === 'lit'] for a string literal. *)
Definition strict_eq_string (v : JsVal) (lit : string) : bool :=
  match v with
  | JStr s => String.eqb s lit
  | _ => false
  end.

(** ** Nodes, edges and the component state *)

Record XYPosition := { x : number; y : number }.

Record NodeData := {
  label : JsVal;
  parameters : gmap string string
}.

(** [style] is [None] while the property is missing from the node object. *)
Record Node := {
  id : string;
  type : string;
  data : NodeData;
  position : XYPosition;
  style : option (gmap string JsVal)
}.

Record Edge := {
  edge_id : string;
  source : string;
  target : string;
  sourceHandle : option string;
  targetHandle : option string
}.

(** The body handed to [axios.post] by [saveWorkflow] and [executeWorkflow]. *)
Inductive Request :=
| SaveWorkflow (doc_id : string) (doc_nodes : list Node) (doc_edges : list Edge)
| ExecuteWorkflow (workflowId : string) (user_input : string).

Record State := {
  nodes : list Node;
  edges : list Edge;
  input : string;
  result : JsVal;
  showModal : bool;
  selectedNode : option Node;
  nodeParams : gmap string string;
  alerts : list JsVal;
  posted : list Request
}.

Definition initial : State :=
  {| nodes := []; edges := []; input := EmptyString;
     result := JStr EmptyString;
     showModal := false; selectedNode := None; nodeParams := ∅;
     alerts := []; posted := [] |}.

(** The setters of the hooks; [setNodes] and [setEdges] take an updater. *)
Definition setNodes (f : list Node → list Node) (st : State) : State :=
  {| nodes := f (nodes st); edges := edges st; input := input st;
     result := result st; showModal := showModal st;
     selectedNode := selectedNode st; nodeParams := nodeParams st;
     alerts := alerts st; posted := posted st |}.

Definition setEdges (f : list Edge → list Edge) (st : State) : State :=
  {| nodes := nodes st; edges := f (edges st); input := input st;
     result := result st; showModal := showModal st;
     selectedNode := selectedNode st; nodeParams := nodeParams st;
     alerts := alerts st; posted := posted st |}.

Definition setInput (v : string) (st : State) : State :=
  {| nodes := nodes st; edges := edges st; input := v;
     result := result st; showModal := showModal st;
     selectedNode := selectedNode st; nodeParams := nodeParams st;
     alerts := alerts st; posted := posted st |}.

Definition setResult (v : JsVal) (st : State) : State :=
  {| nodes := nodes st; edges := edges st; input := input st;
     result := v; showModal := showModal st;
     selectedNode := selectedNode st; nodeParams := nodeParams st;
     alerts := alerts st; posted := posted st |}.

Definition setShowModal (b : bool) (st : State) : State :=
  {| nodes := nodes st; edges := edges st; input := input st;
     result := result st; showModal := b;
     selectedNode := selectedNode st; nodeParams := nodeParams st;
     alerts := alerts st; posted := posted st |}.

Definition setSelectedNode (n : option Node) (st : State) : State :=
  {| nodes := nodes st; edges := edges st; input := input st;
     result := result st; showModal := showModal st;
     selectedNode := n; nodeParams := nodeParams st;
     alerts := alerts st; posted := posted st |}.

Definition setNodeParams (p : gmap string string) (st : State) : State :=
  {| nodes := nodes st; edges := edges st; input := input st;
     result := result st; showModal := showModal st;
     selectedNode := selectedNode st; nodeParams := p;
     alerts := alerts st; posted := posted st |}.

(** [alert(v)] and [axios.post(url, body)] leave a trace in the state. *)
Definition alert (v : JsVal) (st : State) : State :=
  {| nodes := nodes st; edges := edges st; input := input st;
     result := result st; showModal := showModal st;
     selectedNode := selectedNode st; nodeParams := nodeParams st;
     alerts := alerts st ++ [v]; posted := posted st |}.

Definition post (r : Request) (st : State) : State :=
  {| nodes := nodes st; edges := edges st; input := input st;
     result := result st; showModal := showModal st;
     selectedNode := selectedNode st; nodeParams := nodeParams st;
     alerts := alerts st; posted := posted st ++ [r] |}.

(** ** The status overlay *)

(** [{ ...node, style: { ...node.style, backgroundColor: c } }]: spreading
    a missing [style] contributes no property. *)
Definition with_backgroundColor (c : JsVal) (node : Node) : Node :=
  {| id := id node; type := type node; data := data node;
     position := position node;
     style := Some (<["backgroundColor" := c]> (default ∅ (style node))) |}.

(** [n.style?.backgroundColor] *)
Definition backgroundColor (node : Node) : JsVal :=
  match style node with
  | Some s => default JUndefined (s !! "backgroundColor")
  | None => JUndefined
  end.

(** [status === 'processing' ? 'yellow'
      : status === 'completed' ? 'lightgreen' : 'red'] *)
Definition status_color (status : JsVal) : string :=
  if strict_eq_string status "processing" then "yellow"
  else if strict_eq_string status "completed" then "lightgreen"
  else "red".

(** [socket.on('node_processing', ({ nodeId, status }) => ...)] *)
Definition on_node_processing (nodeId status : JsVal) (st : State) : State :=
  setNodes
    (map (λ node,
       if strict_eq_string nodeId (id node)
       then with_backgroundColor (JStr (status_color status)) node
       else node))
    st.

(** [socket.on('execution_complete', ({ result }) => ...)] *)
Definition on_execution_complete (res : JsVal) (st : State) : State :=
  setNodes (map (with_backgroundColor JUndefined)) (setResult res st).

(** The spec's [runtimeStatus] is not a field of the node: it is what the
    colour painted by the two handlers above stands for. *)
Inductive RuntimeStatus := idle | processing | completed | failed.

Definition runtimeStatus (node : Node) : RuntimeStatus :=
  let c := backgroundColor node in
  if strict_eq_string c "yellow" then processing
  else if strict_eq_string c "lightgreen" then completed
  else if strict_eq_string c "red" then failed
  else idle.

(** ** [JSON.parse]

    The built-in is embedded as a lexer followed by a stack parser, both
    structurally recursive on their input, so parsing is total: a text is
    either parsed to a value or rejected with [SyntaxError]. *)

Module JSON.

Inductive token :=
| TLBrace | TRBrace | TLBracket | TRBracket | TColon | TComma
| TString (s : string)
| TNumber (n : number)
| TTrue | TFalse | TNull.

Definition code (c : ascii) : N := N_of_ascii c.

Definition is_whitespace (c : ascii) : bool :=
  (code c =? 32)%N || (code c =? 9)%N || (code c =? 10)%N || (code c =? 13)%N.

Definition is_digit (c : ascii) : bool :=
  (48 <=? code c)%N && (code c <=? 57)%N.

Definition is_lower (c : ascii) : bool :=
  (97 <=? code c)%N && (code c <=? 122)%N.

(** The characters a number is written with: digits, sign, point, e, E. *)
Definition is_number_char (c : ascii) : bool :=
  is_digit c || Ascii.eqb c "-" || Ascii.eqb c "+" || Ascii.eqb c "."
  || Ascii.eqb c "e" || Ascii.eqb c "E".

Definition hex_digit (c : ascii) : option N :=
  let n := code c in
  if is_digit c then Some (n - 48)%N
  else if (97 <=? n)%N && (n <=? 102)%N then Some (n - 87)%N
  else if (65 <=? n)%N && (n <=? 70)%N then Some (n - 55)%N
  else None.

(** The UTF-8 bytes of the UTF-16 unit written [\uXXXX]; each escape is
    encoded on its own. *)
Definition utf8_encode (u : N) : list ascii :=
  if (u <? 128)%N then [ascii_of_N u]
  else if (u <? 2048)%N then
    [ascii_of_N (192 + u / 64); ascii_of_N (128 + u mod 64)]
  else
    [ascii_of_N (224 + u / 4096); ascii_of_N (128 + (u / 64) mod 64);
     ascii_of_N (128 + u mod 64)].

(** *** Numbers: an optional minus sign; an integer part, [0] or digits
    not starting with [0]; an optional fraction, a point and at least one
    digit; an optional exponent, [e] or [E], an optional sign and at least
    one digit. *)

Fixpoint span_digits (cs : list ascii) : list ascii * list ascii :=
  match cs with
  | c :: rest =>
      if is_digit c
      then let '(ds, r) := span_digits rest in (c :: ds, r)
      else ([], cs)
  | [] => ([], [])
  end.

Definition digits_value (ds : list ascii) : Z :=
  fold_left (λ acc c, 10 * acc + Z.of_N (code c - 48))%Z ds 0%Z.

Definition valid_int_part (ds : list ascii) : bool :=
  match ds with
  | [] => false
  | [_] => true
  | c :: _ => negb (Ascii.eqb c "0")
  end.

Definition number_of_lexeme (cs : list ascii) : option number :=
  let '(neg, cs) :=
    match cs with
    | c :: r => if Ascii.eqb c "-" then (true, r) else (false, cs)
    | [] => (false, cs)
    end in
  let '(ip, cs) := span_digits cs in
  if negb (valid_int_part ip) then None else
  let '(fp, cs, frac_ok) :=
    match cs with
    | c :: r =>
        if Ascii.eqb c "."
        then let '(fp, r') := span_digits r in
             (fp, r', negb (Nat.eqb (length fp) 0))
        else ([], cs, true)
    | [] => ([], cs, true)
    end in
  if negb frac_ok then None else
  let m := digits_value (ip ++ fp) in
  let m := if neg then (- m)%Z else m in
  let shift := Z.of_nat (length fp) in
  match cs with
  | [] => Some {| mantissa := m; exponent := (- shift)%Z |}
  | c :: r =>
      if Ascii.eqb c "e" || Ascii.eqb c "E" then
        let '(eneg, r) :=
          match r with
          | s :: r' =>
              if Ascii.eqb s "-" then (true, r')
              else if Ascii.eqb s "+" then (false, r')
              else (false, r)
          | [] => (false, r)
          end in
        let '(ep, r') := span_digits r in
        match ep, r' with
        | _ :: _, [] =>
            let e := digits_value ep in
            let e := if eneg then (- e)%Z else e in
            Some {| mantissa := m; exponent := (e - shift)%Z |}
        | _, _ => None
        end
      else None
  end.

Definition word_token (cs : list ascii) : option token :=
  let w := string_of_list_ascii cs in
  if String.eqb w "true" then Some TTrue
  else if String.eqb w "false" then Some TFalse
  else if String.eqb w "null" then Some TNull
  else None.

(** *** The lexer *)

(** Where the lexer stands; the characters read so far are kept reversed. *)
Inductive mode :=
| Top
| InString (acc : list ascii)
| InEscape (acc : list ascii)
| InUnicode (acc : list ascii) (read : nat) (value : N)
| InNumber (acc : list ascii)
| InWord (acc : list ascii).

Definition lex_top (c : ascii) : option (mode * list token) :=
  if is_whitespace c then Some (Top, [])
  else if Ascii.eqb c "{" then Some (Top, [TLBrace])
  else if Ascii.eqb c "}" then Some (Top, [TRBrace])
  else if Ascii.eqb c "[" then Some (Top, [TLBracket])
  else if Ascii.eqb c "]" then Some (Top, [TRBracket])
  else if Ascii.eqb c ":" then Some (Top, [TColon])
  else if Ascii.eqb c "," then Some (Top, [TComma])
  else if (code c =? 34)%N then Some (InString [], [])
  else if is_digit c || Ascii.eqb c "-" then Some (InNumber [c], [])
  else if is_lower c then Some (InWord [c], [])
  else None.

Definition escape (c : ascii) : option ascii :=
  if (code c =? 34)%N then Some c
  else if Ascii.eqb c "\" then Some c
  else if Ascii.eqb c "/" then Some c
  else if Ascii.eqb c "b" then Some (ascii_of_N 8)
  else if Ascii.eqb c "f" then Some (ascii_of_N 12)
  else if Ascii.eqb c "n" then Some (ascii_of_N 10)
  else if Ascii.eqb c "r" then Some (ascii_of_N 13)
  else if Ascii.eqb c "t" then Some (ascii_of_N 9)
  else None.

(** A token that has ended, then the character that ended it. *)
Definition close_with (t : option token) (c : ascii)
  : option (mode * list token) :=
  match t, lex_top c with
  | Some t, Some (m, ts) => Some (m, t :: ts)
  | _, _ => None
  end.

Definition lex_step (m : mode) (c : ascii) : option (mode * list token) :=
  match m with
  | Top => lex_top c
  | InString acc =>
      if (code c =? 34)%N
      then Some (Top, [TString (string_of_list_ascii (rev acc))])
      else if Ascii.eqb c "\" then Some (InEscape acc, [])
      else if (code c <? 32)%N then None
      else Some (InString (c :: acc), [])
  | InEscape acc =>
      if Ascii.eqb c "u" then Some (InUnicode acc 0 0%N, [])
      else match escape c with
           | Some e => Some (InString (e :: acc), [])
           | None => None
           end
  | InUnicode acc read value =>
      match hex_digit c with
      | Some d =>
          let value := (16 * value + d)%N in
          if Nat.eqb read 3
          then Some (InString (rev (utf8_encode value) ++ acc), [])
          else Some (InUnicode acc (S read) value, [])
      | None => None
      end
  | InNumber acc =>
      if is_number_char c then Some (InNumber (c :: acc), [])
      else close_with (TNumber <$> number_of_lexeme (rev acc)) c
  | InWord acc =>
      if is_lower c then Some (InWord (c :: acc), [])
      else close_with (word_token (rev acc)) c
  end.

Definition lex_end (m : mode) : option (list token) :=
  match m with
  | Top => Some []
  | InNumber acc => (λ n, [TNumber n]) <$> number_of_lexeme (rev acc)
  | InWord acc => (λ t, [t]) <$> word_token (rev acc)
  | InString _ | InEscape _ | InUnicode _ _ _ => None
  end.

Fixpoint lex (m : mode) (cs : list ascii) : option (list token) :=
  match cs with
  | [] => lex_end m
  | c :: rest =>
      match lex_step m c with
      | Some (m', ts) =>
          match lex m' rest with
          | Some more => Some (ts ++ more)
          | None => None
          end
      | None => None
      end
  end.

(** *** The parser *)

(** An array or object that is still open, with what it holds so far
    (reversed); an open object also holds the key whose value is awaited. *)
Inductive frame :=
| InArr (items : list JsVal)
| InObj (props : list (string * JsVal)) (key : string).

Inductive pstate :=
| ExpectValue (stack : list frame)
| ArrOpened (stack : list frame)
| ObjOpened (stack : list frame)
| ExpectKey (props : list (string * JsVal)) (stack : list frame)
| ExpectColon (props : list (string * JsVal)) (key : string)
              (stack : list frame)
| AfterValue (v : JsVal) (stack : list frame).

Definition start_value (t : token) (stack : list frame) : option pstate :=
  match t with
  | TString s => Some (AfterValue (JStr s) stack)
  | TNumber n => Some (AfterValue (JNum n) stack)
  | TTrue => Some (AfterValue (JBool true) stack)
  | TFalse => Some (AfterValue (JBool false) stack)
  | TNull => Some (AfterValue JNull stack)
  | TLBracket => Some (ArrOpened stack)
  | TLBrace => Some (ObjOpened stack)
  | TRBrace | TRBracket | TColon | TComma => None
  end.

Definition parse_step (p : pstate) (t : token) : option pstate :=
  match p with
  | ExpectValue stack => start_value t stack
  | ArrOpened stack =>
      match t with
      | TRBracket => Some (AfterValue (JArr []) stack)
      | _ => start_value t (InArr [] :: stack)
      end
  | ObjOpened stack =>
      match t with
      | TRBrace => Some (AfterValue (JObj []) stack)
      | TString k => Some (ExpectColon [] k stack)
      | _ => None
      end
  | ExpectKey props stack =>
      match t with
      | TString k => Some (ExpectColon props k stack)
      | _ => None
      end
  | ExpectColon props k stack =>
      match t with
      | TColon => Some (ExpectValue (InObj props k :: stack))
      | _ => None
      end
  | AfterValue v [] => None
  | AfterValue v (InArr items :: stack) =>
      match t with
      | TComma => Some (ExpectValue (InArr (v :: items) :: stack))
      | TRBracket => Some (AfterValue (JArr (rev (v :: items))) stack)
      | _ => None
      end
  | AfterValue v (InObj props k :: stack) =>
      match t with
      | TComma => Some (ExpectKey ((k, v) :: props) stack)
      | TRBrace => Some (AfterValue (JObj (rev ((k, v) :: props))) stack)
      | _ => None
      end
  end.

Fixpoint parse_tokens (p : pstate) (ts : list token) : option JsVal :=
  match ts with
  | [] => match p with AfterValue v [] => Some v | _ => None end
  | t :: rest =>
      match parse_step p t with
      | Some p' => parse_tokens p' rest
      | None => None
      end
  end.

Definition parse (text : string) : Outcome JsVal :=
  match lex Top (list_ascii_of_string text) with
  | Some ts =>
      match parse_tokens (ExpectValue []) ts with
      | Some v => Returns v
      | None => Throws SyntaxError
      end
  | None => Throws SyntaxError
  end.

End JSON.

(** [o[k]] on a parsed object: of two members with one key the later wins. *)
Fixpoint lookup_prop (k : string) (props : list (string * JsVal)) : JsVal :=
  match props with
  | [] => JUndefined
  | (k', v) :: rest =>
      match lookup_prop k rest with
      | JUndefined => if String.eqb k' k then v else JUndefined
      | found => found
      end
  end.

(** [tool.name]: reading a property of [null] or [undefined] raises; a
    string, number, boolean or array has no property [name]. *)
Definition get_name (tool : JsVal) : Outcome JsVal :=
  match tool with
  | JUndefined | JNull => Throws TypeError
  | JObj props => Returns (lookup_prop "name" props)
  | JBool _ | JNum _ | JStr _ | JArr _ => Returns JUndefined
  end.

Definition bind {A B} (o : Outcome A) (k : A → Outcome B) : Outcome B :=
  match o with
  | Returns a => k a
  | Throws e => Throws e
  end.

Notation "'let!' x ':=' e 'in' k" := (bind e (λ x, k))
  (at level 10, x name, e at level 100, k at level 200, only parsing).

(** ** Dropping a tool on the canvas *)

(** What a drop reads from its surroundings: the clock, the random source
    (already rendered by [toString(36)], which is floating-point work) and
    the canvas transform of [useReactFlow]. *)
Record Env := {
  Date_now : N;
  Math_random_toString36 : string;
  screenToFlowPosition : XYPosition → XYPosition
}.

Record DragEvent := {
  dataTransfer : gmap string string;
  clientX : number;
  clientY : number
}.

(** [dataTransfer.getData(format)] is the empty string when nothing was
    stored under [format]. *)
Definition getData (event : DragEvent) (format : string) : string :=
  default EmptyString (dataTransfer event !! format).

(** [`${Date.now()}-${Math.random().toString(36).substr(2, 9)}`] *)
Definition uniqueId (env : Env) : string :=
  pretty (Date_now env) +:+ "-" +:+ substring 2 9 (Math_random_toString36 env).

Definition newNode (env : Env) (event : DragEvent) (name : JsVal) : Node :=
  {| id := uniqueId env;
     type := "default";
     data := {| label := name; parameters := ∅ |};
     position :=
       screenToFlowPosition env {| x := clientX event; y := clientY event |};
     style := None |}.

Definition onDrop (env : Env) (event : DragEvent) (st : State)
  : Outcome State :=
  let toolData := getData event "application/reactflow" in
  if String.eqb toolData EmptyString then Returns st
  else
    let! tool := JSON.parse toolData in
    let! name := get_name tool in
    Returns (setNodes (λ nds, nds ++ [newNode env event name]) st).

(** ** Connecting two nodes *)

(** The connection React Flow hands to [onConnect]; a handle is [None]
    when it is [null]. *)
Record Connection := {
  conn_source : string;
  conn_target : string;
  conn_sourceHandle : option string;
  conn_targetHandle : option string
}.

(** [addEdge] is imported from the package [@xyflow/react]; it is not part
    of this repository.  The definitions below, down to [addEdge], follow
    the package's implementation of [getEdgeId], [connectionExists] and
    [addEdge]: a connection without source or target is refused, an edge
    that is already there is not added a second time, a [null] handle is
    dropped from the new edge. *)

(** [handle || ''] *)
Definition handle_or_empty (h : option string) : string :=
  default EmptyString h.

(** [!handle] *)
Definition no_handle (h : option string) : bool :=
  String.eqb (handle_or_empty h) EmptyString.

Definition getEdgeId (c : Connection) : string :=
  "xy-edge__" +:+ conn_source c +:+ handle_or_empty (conn_sourceHandle c)
  +:+ "-" +:+ conn_target c +:+ handle_or_empty (conn_targetHandle c).

Definition same_handle (a b : option string) : bool :=
  bool_decide (a = b) || (no_handle a && no_handle b).

Definition connectionExists (edge : Edge) (eds : list Edge) : bool :=
  existsb
    (λ el,
       String.eqb (source el) (source edge)
       && String.eqb (target el) (target edge)
       && same_handle (sourceHandle el) (sourceHandle edge)
       && same_handle (targetHandle el) (targetHandle edge))
    eds.

(** [{ ...edgeParams, id: getEdgeId(edgeParams) }] *)
Definition edge_of (c : Connection) : Edge :=
  {| edge_id := getEdgeId c;
     source := conn_source c; target := conn_target c;
     sourceHandle := conn_sourceHandle c;
     targetHandle := conn_targetHandle c |}.

Definition addEdge (c : Connection) (eds : list Edge) : list Edge :=
  if String.eqb (conn_source c) EmptyString
     || String.eqb (conn_target c) EmptyString
  then eds
  else if connectionExists (edge_of c) eds then eds
  else eds ++ [edge_of c].

Definition onConnect (params : Connection) (st : State) : State :=
  setEdges (λ eds, addEdge params eds) st.

(** ** The parameter editor *)

Definition onNodeClick (node : Node) (st : State) : State :=
  setShowModal true
    (setNodeParams (parameters (data node)) (setSelectedNode (Some node) st)).

Definition handleParamChange (paramName value : string) (st : State) : State :=
  setNodeParams (<[paramName := value]> (nodeParams st)) st.

(** The Cancel button only hides the modal. *)
Definition cancel (st : State) : State := setShowModal false st.

(** [{ ...node, data: { ...node.data, parameters: p } }] *)
Definition with_parameters (p : gmap string string) (node : Node) : Node :=
  {| id := id node; type := type node;
     data := {| label := label (data node); parameters := p |};
     position := position node; style := style node |}.

(** The two parts of [handleParamSubmit] the revisions share: the updater
    handed to [setNodes], which writes the draft into every node carrying
    the selected id, and the three setters that close the modal. *)
Definition write_parameters (sel : Node) (draft : gmap string string)
  : list Node → list Node :=
  map (λ node,
    if String.eqb (id node) (id sel)
    then with_parameters draft node
    else node).

Definition close_modal (st : State) : State :=
  setNodeParams ∅ (setSelectedNode None (setShowModal false st)).

(** ** Saving and executing *)

Definition document (st : State) : Request :=
  SaveWorkflow "workflow1" (nodes st) (edges st).

Definition doc_nodes_of (r : Request) : list Node :=
  match r with
  | SaveWorkflow _ ns _ => ns
  | ExecuteWorkflow _ _ => []
  end.

(** How a request ends: the server's answer, or a transport failure. *)
Inductive Reply :=
| Resolved (message : JsVal)
| Rejected.

(** [saveWorkflow] up to its [await]. *)
Definition saveWorkflow (st : State) : State := post (document st) st.

(** [executeWorkflow] up to its [await]. *)
Definition executeWorkflow (st : State) : State :=
  post (ExecuteWorkflow "workflow1" (input st))
    (setNodes (map (with_backgroundColor JUndefined))
       (setResult (JStr EmptyString) st)).

(** ** src/FlowCanvas.js *)

Module Canvas.

(** The updater reads [selectedNode.id] once per node, so a missing
    selection raises as soon as there is a node to visit. *)
Definition handleParamSubmit (st : State) : Outcome State :=
  match selectedNode st, nodes st with
  | Some sel, _ =>
      Returns (close_modal (setNodes (write_parameters sel (nodeParams st)) st))
  | None, [] => Returns (close_modal st)
  | None, _ :: _ => Throws TypeError
  end.

Definition saveWorkflow_settled (r : Reply) (st : State) : State :=
  match r with
  | Resolved message => alert message st
  | Rejected => alert (JStr "Failed to save workflow") st
  end.

Definition executeWorkflow_settled (r : Reply) (st : State) : State :=
  match r with
  | Resolved _ => st
  | Rejected => setResult (JStr "Error executing workflow") st
  end.

End Canvas.

(** ** The revision with validation *)

Module CanvasChecked.

Section Engine.

(** [e.message] of the [SyntaxError] raised by [JSON.parse] on a text: the
    wording belongs to the JS engine. *)
Variable SyntaxError_message : string → string.

(** [!v] for an optional string property. *)
Definition falsy (v : option string) : bool :=
  match v with
  | Some s => String.eqb s EmptyString
  | None => true
  end.

(** [v || fallback] *)
Definition or_else (v : option string) (fallback : string) : string :=
  match v with
  | Some s => if String.eqb s EmptyString then fallback else s
  | None => fallback
  end.

(** Returns the verdict and the state after the [alert] it may raise.
    [fetch_rule] is the second [if] of the source with the closing
    [return true]; the first [if] falls through to it unless it returns. *)
Definition validateRequiredFields (params : gmap string string)
    (toolName : JsVal) (st : State) : bool * State :=
  let fetch_rule :=
    if strict_eq_string toolName "fetch_from_rest_api_tool" then
      let headers := or_else (params !! "headers") "{}" in
      let body := or_else (params !! "body") "{}" in
      match JSON.parse headers with
      | Throws _ =>
          (false,
           alert (JStr ("Invalid JSON in headers: "
                        +:+ SyntaxError_message headers)) st)
      | Returns _ =>
          match JSON.parse body with
          | Throws _ =>
              (false,
               alert (JStr ("Invalid JSON in body: "
                            +:+ SyntaxError_message body)) st)
          | Returns _ => (true, st)
          end
      end
    else (true, st) in
  if strict_eq_string toolName "llm_tool" then
    if falsy (params !! "apiKey")
    then (false, alert (JStr "API Key is required for llm_tool") st)
    else fetch_rule
  else fetch_rule.

Definition handleParamSubmit (st : State) : Outcome State :=
  match selectedNode st with
  | None => Throws TypeError
  | Some sel =>
      let '(valid, st') :=
        validateRequiredFields (nodeParams st) (label (data sel)) st in
      if negb valid then Returns st'
      else
        Returns
          (close_modal (setNodes (write_parameters sel (nodeParams st)) st'))
  end.

End Engine.

Definition saveWorkflow_settled (r : Reply) (st : State) : State :=
  match r with
  | Resolved message => alert message st
  | Rejected => st
  end.

Definition executeWorkflow_settled (r : Reply) (st : State) : State := st.

End CanvasChecked.

(** ** The component as a state machine *)

(** What a revision adds to the shared handlers. *)
Record Revision := {
  handleParamSubmit : State → Outcome State;
  saveWorkflow_settled : Reply → State → State;
  executeWorkflow_settled : Reply → State → State
}.

Definition Canvas_revision : Revision :=
  {| handleParamSubmit := Canvas.handleParamSubmit;
     saveWorkflow_settled := Canvas.saveWorkflow_settled;
     executeWorkflow_settled := Canvas.executeWorkflow_settled |}.

Definition CanvasChecked_revision (message : string → string) : Revision :=
  {| handleParamSubmit := CanvasChecked.handleParamSubmit message;
     saveWorkflow_settled := CanvasChecked.saveWorkflow_settled;
     executeWorkflow_settled := CanvasChecked.executeWorkflow_settled |}.

(** Everything that can call into the component: socket events, canvas
    gestures, the modal's controls, the sidebar's buttons and the two
    requests coming back. *)
Inductive Event :=
| NodeProcessing (nodeId status : JsVal)
| ExecutionComplete (res : JsVal)
| Drop (env : Env) (event : DragEvent)
| Connect (params : Connection)
| NodeClick (node : Node)
| ParamChange (paramName value : string)
| ParamSubmit
| Cancel
| InputChange (value : string)
| Save
| SaveSettled (r : Reply)
| Execute
| ExecuteSettled (r : Reply).

Definition step (rev : Revision) (e : Event) (st : State) : Outcome State :=
  match e with
  | NodeProcessing nodeId status => Returns (on_node_processing nodeId status st)
  | ExecutionComplete res => Returns (on_execution_complete res st)
  | Drop env event => onDrop env event st
  | Connect params => Returns (onConnect params st)
  | NodeClick node => Returns (onNodeClick node st)
  | ParamChange paramName value => Returns (handleParamChange paramName value st)
  | ParamSubmit => handleParamSubmit rev st
  | Cancel => Returns (cancel st)
  | InputChange value => Returns (setInput value st)
  | Save => Returns (saveWorkflow st)
  | SaveSettled r => Returns (saveWorkflow_settled rev r st)
  | Execute => Returns (executeWorkflow st)
  | ExecuteSettled r => Returns (executeWorkflow_settled rev r st)
  end.

Fixpoint run (rev : Revision) (es : list Event) (st : State) : Outcome State :=
  match es with
  | [] => Returns st
  | e :: rest => let! st' := step rev e st in run rev rest st'
  end.

(** ** Sample inputs *)

Definition hundred : number := {| mantissa := 100; exponent := 0 |}.

(** A canvas that is neither panned nor zoomed. *)
Definition env_at (now : N) (random : string) : Env :=
  {| Date_now := now; Math_random_toString36 := random;
     screenToFlowPosition := λ p, p |}.

Definition drag (payload : string) : DragEvent :=
  {| dataTransfer := {[ "application/reactflow" := payload ]};
     clientX := hundred; clientY := hundred |}.

(** A drag that did not start on a tool of the sidebar. *)
Definition foreign_drag : DragEvent :=
  {| dataTransfer := {[ "text/plain" := "hello" ]};
     clientX := hundred; clientY := hundred |}.

Definition quoted (s : string) : string :=
  String (ascii_of_N 34) (s +:+ String (ascii_of_N 34) EmptyString).

(** [JSON.stringify({ name })] *)
Definition tool_payload (name : string) : string :=
  "{" +:+ quoted "name" +:+ ":" +:+ quoted name +:+ "}".

Definition engine_message (text : string) : string :=
  "Unexpected token in JSON".

Definition sample_node (i : string) (tool : string)
    (params : gmap string string) : Node :=
  {| id := i; type := "default";
     data := {| label := JStr tool; parameters := params |};
     position := {| x := hundred; y := hundred |}; style := None |}.

Definition editing (node : Node) (draft : gmap string string) : State :=
  {| nodes := [node]; edges := []; input := EmptyString;
     result := JStr EmptyString; showModal := true;
     selectedNode := Some node; nodeParams := draft;
     alerts := []; posted := [] |}.

Definition a_to_b : Connection :=
  {| conn_source := "a"; conn_target := "b";
     conn_sourceHandle := None; conn_targetHandle := None |}.

Definition a_to_a : Connection :=
  {| conn_source := "a"; conn_target := "a";
     conn_sourceHandle := None; conn_targetHandle := None |}.

(** The editor open on an [llm_tool] node whose stored key the user has
    just erased from the form. *)
Definition llm_node : Node :=
  sample_node "n1" "llm_tool" {[ "apiKey" := "sk-live" ]}.

Definition llm_cleared : State :=
  editing llm_node {[ "apiKey" := EmptyString ]}.

Definition fetch_node : Node :=
  sample_node "n2" "fetch_from_rest_api_tool" ∅.

Definition fetch_bad_headers : State :=
  editing fetch_node {[ "headers" := "{not json" ]}.

Definition search_node : Node :=
  sample_node "n3" "search_tool" {[ "query" := "old"; "limit" := "5" ]}.

Definition search_edited : State :=
  editing search_node {[ "query" := "new" ]}.

Definition noon : Env := env_at 1700000000000 "0.4fzyo82mvyr".

(** A later draw of [Math.random] in the same millisecond, equal to the
    one of [noon] on its first nine digits after the point. *)
Definition noon_again : Env := env_at 1700000000000 "0.4fzyo82mvzz".

Definition one_node_graph : State := setNodes (λ _, [search_node]) initial.

(** One millisecond after [noon]. *)
Definition after_noon : Env := env_at 1700000000001 "0.4fzyo82mvyr".

Definition two_drops : list Event :=
  [Drop noon (drag (tool_payload "search_tool"));
   NodeProcessing (JStr "1700000000000-4fzyo82mv") (JStr "completed");
   Drop after_noon (drag (tool_payload "llm_tool"))].

(** ** Vocabulary of the drop and of the ids *)

(** The text is what [JSON.stringify] makes of a tool: an object whose
    [name] is a string. *)
Definition is_tool_payload (text : string) : Prop :=
  ∃ props name, JSON.parse text = Returns (JObj props)
    ∧ lookup_prop "name" props = JStr name.

(** The two things an id is made of: the clock's reading and the nine
    characters kept of the random draw. *)
Definition stamp (env : Env) : N * string :=
  (Date_now env, substring 2 9 (Math_random_toString36 env)).

(** The stamps observed by the drops of a session, in order. *)
Definition drop_stamps (es : list Event) : list (N * string) :=
  omap (λ e, match e with Drop env _ => Some (stamp env) | _ => None end) es.

(** The handlers of a revision leave the ids of the graph alone. *)
Definition keeps_ids (rev : Revision) : Prop :=
  (∀ st st', handleParamSubmit rev st = Returns st' →
     id <$> nodes st' = id <$> nodes st)
  ∧ (∀ r st, id <$> nodes (saveWorkflow_settled rev r st) = id <$> nodes st)
  ∧ (∀ r st, id <$> nodes (executeWorkflow_settled rev r st)
             = id <$> nodes st).

Definition id_of_stamp (s : N * string) : string :=
  pretty s.1 +:+ "-" +:+ s.2.

Fixpoint dash_free (s : string) : Prop :=
  match s with
  | EmptyString => True
  | String c rest => c ≠ "-"%char ∧ dash_free rest
  end.

(** ** Vocabulary of the validation rules *)

(** A free-form field that holds text [JSON.parse] rejects. *)
Definition malformed (field : option string) (text : string) : Prop :=
  field = Some text ∧ text ≠ EmptyString
  ∧ JSON.parse text = Throws SyntaxError.

(** A free-form field that is absent, empty, or holds text that parses. *)
Definition empty_or_well_formed (field : option string) : Prop :=
  CanvasChecked.falsy field = true
  ∨ ∃ text v, field = Some text ∧ JSON.parse text = Returns v.

(** ** Vocabulary of sessions *)

(** One of the two revisions of the repository. *)
Definition shipped (rev : Revision) : Prop :=
  rev = Canvas_revision ∨ ∃ message, rev = CanvasChecked_revision message.

(** The events whose handler writes [style.backgroundColor]. *)
Definition paints (e : Event) : bool :=
  match e with
  | NodeProcessing _ _ | ExecutionComplete _ | Execute => true
  | _ => false
  end.

Definition is_submit (e : Event) : bool :=
  match e with ParamSubmit => true | _ => false end.

Definition is_connect (e : Event) : bool :=
  match e with Connect _ => true | _ => false end.

Definition is_drop (e : Event) : bool :=
  match e with Drop _ _ => true | _ => false end.

(** What the handler of an event can make of a node of the graph: nothing,
    a new colour, or new parameters. *)
Inductive touch (e : Event) : Node → Node → Prop :=
| touch_none (node : Node) : touch e node node
| touch_colour (c : JsVal) (node : Node) :
    paints e = true →
    c = JUndefined ∨ (∃ status, c = JStr (status_color status)) →
    touch e node (with_backgroundColor c node)
| touch_parameters (p : gmap string string) (node : Node) :
    is_submit e = true → touch e node (with_parameters p node).

(** The second list holds, position by position, a node related to each
    node of the first, and possibly more nodes after them. *)
Definition kept_by (R : Node → Node → Prop) (ns ns' : list Node) : Prop :=
  ∃ ns1 added, ns' = ns1 ++ added ∧ Forall2 R ns ns1.

(** What no handler of the component changes in a node. *)
Definition same_identity (a b : Node) : Prop :=
  id a = id b ∧ type a = type b ∧ label (data a) = label (data b)
  ∧ position a = position b.

Definition same_data (a b : Node) : Prop := data a = data b.

Definition same_style (a b : Node) : Prop := style a = style b.

(** The edits typed in the modal, oldest first, as events and as what
    they make of a draft. *)
Definition edit_events (edits : list (string * string)) : list Event :=
  (λ kv, ParamChange kv.1 kv.2) <$> edits.

Definition apply_edits (edits : list (string * string))
    (draft : gmap string string) : gmap string string :=
  foldl (λ m kv, <[kv.1 := kv.2]> m) draft edits.

(** The test [connectionExists] runs on each edge of the graph. *)
Definition same_connection (a b : Edge) : bool :=
  String.eqb (source a) (source b)
  && String.eqb (target a) (target b)
  && same_handle (sourceHandle a) (sourceHandle b)
  && same_handle (targetHandle a) (targetHandle b).

(** No two edges of the list join the same source to the same target
    through the same handles. *)
Fixpoint duplicate_free (eds : list Edge) : Prop :=
  match eds with
  | [] => True
  | e :: rest =>
      (∀ e', e' ∈ rest → same_connection e e' = false) ∧ duplicate_free rest
  end.

(** An edge as [addEdge] makes them. *)
Definition made_by_addEdge (e : Edge) : Prop :=
  source e ≠ EmptyString ∧ target e ≠ EmptyString
  ∧ edge_id e
    = "xy-edge__" +:+ source e +:+ handle_or_empty (sourceHandle e)
      +:+ "-" +:+ target e +:+ handle_or_empty (targetHandle e).

(** ** More sample inputs *)


Definition b_to_a : Connection :=
  {| conn_source := "b"; conn_target := "a";
     conn_sourceHandle := None; conn_targetHandle := None |}.

Definition busy_session : list Event :=
  [Drop noon (drag (tool_payload "search_tool"));
   Drop after_noon (drag (tool_payload "llm_tool"));
   Connect a_to_b; Connect a_to_b; Connect b_to_a;
   NodeProcessing (JStr "1700000000000-4fzyo82mv") (JStr "processing");
   InputChange "hello"; Execute; ExecuteSettled Rejected;
   Save; SaveSettled Rejected].

(** The two events the socket delivers. *)
Definition is_socket (e : Event) : bool :=
  match e with
  | NodeProcessing _ _ | ExecutionComplete _ => true
  | _ => false
  end.

(** ** Conversions of the language *)

Section Numbers.

(** What the engine makes of a number: its text in a template or as a
    property key ([Number::toString]), its truth value ([ToBoolean]: false
    for zero and NaN) and its text in [JSON.stringify] ([null] for the
    infinities).  All three are floating-point work. *)
Variable Number_toString : number → string.
Variable Number_toBoolean : number → bool.
Variable Number_toJSON : number → string.

(** [ToBoolean]: what [v || fallback] and [!v] test. *)
Definition ToBoolean (v : JsVal) : bool :=
  match v with
  | JUndefined | JNull => false
  | JBool b => b
  | JNum n => Number_toBoolean n
  | JStr s => negb (String.eqb s EmptyString)
  | JArr _ | JObj _ => true
  end.

(** [v || fallback] *)
Definition or_value (v fallback : JsVal) : JsVal :=
  if ToBoolean v then v else fallback.

(** An own property [k], whatever its value. *)
Definition has_own (k : string) (props : list (string * JsVal)) : bool :=
  existsb (λ kv, String.eqb kv.1 k) props.

(** Conversions made one after the other, up to the first that raises. *)
Fixpoint collect {A} (os : list (Outcome A)) : Outcome (list A) :=
  match os with
  | [] => Returns []
  | o :: rest =>
      let! a := o in
      let! l := collect rest in
      Returns (a :: l)
  end.

(** [ToString]: a value inside a template literal or used as a property
    key.  An array is its elements joined by commas
    ([Array.prototype.join]), [null] and [undefined] elements giving
    nothing.  An object goes through [OrdinaryToPrimitive]:
    [Object.prototype.toString] answers ["[object Object]"], unless the
    object has an own property [toString]; no value here is a function, so
    that property hides the method and cannot be called,
    [Object.prototype.valueOf] gives the object back, and the conversion
    raises [TypeError]. *)
Fixpoint ToString (v : JsVal) : Outcome string :=
  match v with
  | JUndefined => Returns "undefined"
  | JNull => Returns "null"
  | JBool b => Returns (if b then "true" else "false")
  | JNum n => Returns (Number_toString n)
  | JStr s => Returns s
  | JArr items =>
      let! parts :=
        collect
          (map (λ item,
             match item with
             | JUndefined | JNull => Returns EmptyString
             | _ => ToString item
             end) items) in
      Returns (String.concat "," parts)
  | JObj props =>
      if has_own "toString" props then Throws TypeError
      else Returns "[object Object]"
  end.

(** *** The key of the canvas *)

(** [`${n.id}-${n.style?.backgroundColor || 'default'}`] *)
Definition key_part (n : Node) : Outcome string :=
  let! colour := ToString (or_value (backgroundColor n) (JStr "default")) in
  Returns (id n +:+ "-" +:+ colour).

(** [nodes.map(...).join('-')] *)
Definition reactFlowKey (ns : list Node) : Outcome string :=
  let! parts := collect (map key_part ns) in
  Returns (String.concat "-" parts).

(** *** The schemas of the catalog *)

(** [tool.parameters], read like [tool.name]. *)
Definition get_parameters (tool : JsVal) : Outcome JsVal :=
  match tool with
  | JUndefined | JNull => Throws TypeError
  | JObj props => Returns (lookup_prop "parameters" props)
  | JBool _ | JNum _ | JStr _ | JArr _ => Returns JUndefined
  end.

(** [acc[key] = v] on a plain object, as the own properties it leaves: the
    key is converted to a string, and assigning to [__proto__] goes to the
    prototype's setter and creates none. *)
Definition assign (acc : gmap string JsVal) (key : JsVal) (v : JsVal)
  : Outcome (gmap string JsVal) :=
  let! k := ToString key in
  Returns (if String.eqb k "__proto__" then acc else <[k := v]> acc).

(** [tools.reduce((acc, tool) => { acc[tool.name] = tool.parameters || [];
    return acc; }, acc)]: the key is converted once the right-hand side has
    its value. *)
Fixpoint reduce_tools (acc : gmap string JsVal) (tools : list JsVal)
  : Outcome (gmap string JsVal) :=
  match tools with
  | [] => Returns acc
  | tool :: rest =>
      let! name := get_name tool in
      let! params := get_parameters tool in
      let! acc' := assign acc name (or_value params (JArr [])) in
      reduce_tools acc' rest
  end.

Definition toolParameters (tools : list JsVal) : Outcome (gmap string JsVal) :=
  reduce_tools ∅ tools.

(** *** [JSON.stringify] *)

Definition hex_char (d : N) : ascii :=
  if (d <? 10)%N then ascii_of_N (48 + d) else ascii_of_N (87 + d).

(** [QuoteJSONString], one character at a time; text outside ASCII is
    copied as it is. *)
Definition quote_char (c : ascii) : list ascii :=
  let n := N_of_ascii c in
  if (n =? 34)%N then ["\"; c]%char
  else if (n =? 92)%N then ["\"; c]%char
  else if (n =? 8)%N then ["\"; "b"]%char
  else if (n =? 12)%N then ["\"; "f"]%char
  else if (n =? 10)%N then ["\"; "n"]%char
  else if (n =? 13)%N then ["\"; "r"]%char
  else if (n =? 9)%N then ["\"; "t"]%char
  else if (n <? 32)%N then
    ["\"; "u"; "0"; "0"; hex_char (n / 16); hex_char (n mod 16)]%char
  else [c].

Definition QuoteJSONString (s : string) : string :=
  string_of_list_ascii
    (ascii_of_N 34
     :: concat (map quote_char (list_ascii_of_string s)) ++ [ascii_of_N 34]).

(** A property name that is an array index: the decimal text, without
    superfluous zero, of an integer below 2^32 - 1. *)
Definition array_index (k : string) : option N :=
  let cs := list_ascii_of_string k in
  if forallb JSON.is_digit cs && JSON.valid_int_part cs then
    let n := Z.to_N (JSON.digits_value cs) in
    if (n <? 4294967295)%N then Some n else None
  else None.

(** The value written last under [k], or [d] when there is none. *)
Fixpoint last_value {A} (k : string) (ps : list (string * A)) (d : A) : A :=
  match ps with
  | [] => d
  | (k', v) :: rest => last_value k rest (if String.eqb k' k then v else d)
  end.

(** One entry per key, where the key comes first, with the value written
    last. *)
Fixpoint dedupe {A} (seen : list string) (ps : list (string * A))
  : list (string * A) :=
  match ps with
  | [] => []
  | (k, v) :: rest =>
      if bool_decide (k ∈ seen) then dedupe seen rest
      else (k, last_value k rest v) :: dedupe (k :: seen) rest
  end.

Fixpoint insert_by_index {A} (n : N) (e : A) (sorted : list (N * A))
  : list (N * A) :=
  match sorted with
  | [] => [(n, e)]
  | (m, f) :: rest =>
      if (n <? m)%N then (n, e) :: sorted
      else (m, f) :: insert_by_index n e rest
  end.

(** The own properties of the object a list of members stands for, in the
    order the language enumerates them: array indices first, ascending,
    then the other keys in the order they were first written. *)
Definition own_entries {A} (ps : list (string * A)) : list (string * A) :=
  let d := dedupe [] ps in
  let indexed :=
    omap (λ e : string * A, (λ n, (n, e)) <$> array_index e.1) d in
  let named := filter (λ e : string * A, array_index e.1 = None) d in
  (snd <$> foldr (λ ne, insert_by_index ne.1 ne.2) [] indexed) ++ named.

(** [JSON.stringify(v)]; [None] is [undefined], which is what the built-in
    returns for [undefined].  Inside an array [undefined] is written
    [null]; inside an object a property holding [undefined] is left out. *)
Fixpoint stringify (v : JsVal) : option string :=
  match v with
  | JUndefined => None
  | JNull => Some "null"
  | JBool b => Some (if b then "true" else "false")
  | JNum n => Some (Number_toJSON n)
  | JStr s => Some (QuoteJSONString s)
  | JArr items =>
      Some ("[" +:+ String.concat ","
                      (map (λ item, default "null" (stringify item)) items)
            +:+ "]")
  | JObj props =>
      let written := map (λ kv, (kv.1, stringify kv.2)) props in
      Some ("{" +:+ String.concat ","
                      (omap (λ kt : string * option string,
                               (λ t, QuoteJSONString kt.1 +:+ ":" +:+ t)
                               <$> kt.2)
                            (own_entries written))
            +:+ "}")
  end.

(** [onDragStart]: the event with the tool stored as text under the
    transfer key, and the [effectAllowed] it sets.  [setData] stores the
    text of what it is given, ["undefined"] for [undefined]. *)
Definition onDragStart (event : DragEvent) (tool : JsVal)
  : DragEvent * string :=
  ({| dataTransfer :=
        <["application/reactflow" := default "undefined" (stringify tool)]>
          (dataTransfer event);
      clientX := clientX event; clientY := clientY event |},
   "move").

End Numbers.

(** ** Vocabulary of the catalog *)

(** Keys that [own_entries] leaves as they are: pairwise distinct, none an
    array index. *)
Definition plain_keys (ks : list string) : Prop :=
  NoDup ks ∧ Forall (λ k, array_index k = None) ks.

(** A value made of strings, booleans, [null], arrays and objects with
    plain keys: no number and no [undefined] anywhere. *)
Fixpoint json_plain (v : JsVal) : Prop :=
  match v with
  | JUndefined | JNum _ => False
  | JNull | JBool _ | JStr _ => True
  | JArr items => fold_right (λ item rest, json_plain item ∧ rest) True items
  | JObj props =>
      plain_keys (map fst props)
      ∧ fold_right (λ kv rest, json_plain (snd kv) ∧ rest) True props
  end.

(** The colours the status handlers paint, and no colour. *)
Definition status_coloured (n : Node) : Prop :=
  backgroundColor n = JUndefined ∨ backgroundColor n = JStr "yellow"
  ∨ backgroundColor n = JStr "lightgreen" ∨ backgroundColor n = JStr "red".

(** What the canvas key shows of a node's colour. *)
Definition shown_colour (n : Node) : string :=
  match backgroundColor n with
  | JStr s => if String.eqb s EmptyString then "default" else s
  | _ => "default"
  end.

(** What the canvas key is made of when every node shows a status colour. *)
Definition key_text (ns : list Node) : string :=
  String.concat "-" (map (λ n, id n +:+ "-" +:+ shown_colour n) ns).

(** A value whose conversion to a string raises: an object with an own
    property [toString], or an array that holds such a value. *)
Fixpoint unprintable (v : JsVal) : bool :=
  match v with
  | JObj props => has_own "toString" props
  | JArr items => existsb unprintable items
  | _ => false
  end.

(** [v === null || v === undefined] *)
Definition nullish (v : JsVal) : bool :=
  match v with
  | JNull | JUndefined => true
  | _ => false
  end.

(** What reading the property [k] gives on a value other than [null] and
    [undefined], for a [k] that strings, arrays and the prototypes do not
    have. *)
Definition field_of (k : string) (v : JsVal) : JsVal :=
  match v with
  | JObj props => lookup_prop k props
  | _ => JUndefined
  end.

(** An entry of the catalog that [tools.reduce] takes: it is neither
    [null] nor [undefined], and its name can be made a property key. *)
Definition accepted (tool : JsVal) : bool :=
  negb (nullish tool) && negb (unprintable (field_of "name" tool)).

(** What an accepted entry of the catalog writes under the key [k]:
    nothing when its name is another key. *)
Definition schema_under (toString : number → string)
    (toBoolean : number → bool) (k : string) (tool : JsVal) : option JsVal :=
  match ToString toString (field_of "name" tool) with
  | Returns k' =>
      if String.eqb k' k
      then Some (or_value toBoolean (field_of "parameters" tool) (JArr []))
      else None
  | Throws _ => None
  end.

Definition catalog_tool : JsVal :=
  JObj [("name", JStr "search_tool");
        ("description", JStr "Searches the web");
        ("parameters",
         JArr [JObj [("name", JStr "query"); ("label", JStr "Query");
                     ("type", JStr "text"); ("required", JBool true)]])].

Definition plain_digits (n : number) : string := pretty (mantissa n).
Definition nonzero (n : number) : bool := negb (mantissa n =? 0)%Z.

(** The words the canvas key uses for a colour. *)
Definition colour_word (s : string) : Prop :=
  s = "default" ∨ s = "yellow" ∨ s = "lightgreen" ∨ s = "red".

(** ** Vocabulary of the drag-and-drop round trip *)

(** Token lists joined by commas. *)
Fixpoint join_tokens (ls : list (list JSON.token)) : list JSON.token :=
  match ls with
  | [] => []
  | [l] => l
  | l :: rest => l ++ JSON.TComma :: join_tokens rest
  end.

(** The tokens the text of a value is made of. *)
Fixpoint tokens_of (v : JsVal) : list JSON.token :=
  match v with
  | JUndefined => []
  | JNull => [JSON.TNull]
  | JBool b => [if b then JSON.TTrue else JSON.TFalse]
  | JNum n => [JSON.TNumber n]
  | JStr s => [JSON.TString s]
  | JArr items =>
      JSON.TLBracket :: join_tokens (map tokens_of items) ++ [JSON.TRBracket]
  | JObj props =>
      JSON.TLBrace
      :: join_tokens
           (map (λ kv, JSON.TString kv.1 :: JSON.TColon :: tokens_of kv.2)
              props)
      ++ [JSON.TRBrace]
  end.

(** Text that ends a word: nothing, or a character that is no lower-case
    letter. *)
Definition breaks (rest : list ascii) : Prop :=
  match rest with
  | [] => True
  | c :: _ => JSON.is_lower c = false
  end.

(** What reading a value's tokens amounts to: the parser stands where it
    stands after a value. *)
Definition reads_back (v : JsVal) : Prop :=
  ∀ stack rest,
    JSON.parse_tokens (JSON.ExpectValue stack) (tokens_of v ++ rest)
    = JSON.parse_tokens (JSON.AfterValue v stack) rest.

(** The drop that follows a drag: the same transfer store, a pointer
    position of its own. *)
Definition drop_of (start : DragEvent) (x y : number) : DragEvent :=
  {| dataTransfer := dataTransfer start; clientX := x; clientY := y |}.

(** The modal is shown only on a selected node. *)
Definition modal_consistent (st : State) : Prop :=
  showModal st = true → is_Some (selectedNode st).

(** ** Sample sessions *)

Definition quiet_session : list Event :=
  [Drop noon (drag (tool_payload "search_tool"));
   Connect a_to_b;
   NodeClick search_node; ParamChange "query" "new"; ParamSubmit;
   Save; SaveSettled (Resolved (JStr "saved"))].

Definition socket_burst : list Event :=
  [NodeProcessing (JStr "n3") (JStr "processing");
   ExecutionComplete (JStr "partial");
   NodeProcessing (JStr "n3") (JStr "failed")].


(** ** What the socket delivers *)

(** A message of the socket: the event's name, and the argument the server
    emitted with it, which the listener receives as it is. *)
Inductive Message :=
| node_processing (payload : JsVal)
| execution_complete (payload : JsVal).

(** Reading [key] off the payload, as the parameter patterns
    [({ nodeId, status })] and [({ result })] do: [null] and [undefined]
    cannot be taken apart; a string, number, boolean or array has none of
    these three properties. *)
Definition get_field (key : string) (payload : JsVal) : Outcome JsVal :=
  match payload with
  | JUndefined | JNull => Throws TypeError
  | JObj props => Returns (lookup_prop key props)
  | JBool _ | JNum _ | JStr _ | JArr _ => Returns JUndefined
  end.

(** [console.log(`Node ${nodeId} status: ${status}`)]: the console is not
    part of the state, the two conversions of the template are.  The
    revision with validation logs another sentence with the same two
    values. *)
Definition log_line (toString : number → string) (nodeId status : JsVal)
  : Outcome string :=
  let! n := ToString toString nodeId in
  let! s := ToString toString status in
  Returns ("Node " +:+ n +:+ " status: " +:+ s).

(** The two listeners of [socket.on], whole: the parameter pattern takes
    the payload apart, [node_processing] writes its log line, and then the
    state is updated as [step] says for the event with these fields. *)
Definition deliver (toString : number → string) (rev : Revision)
    (m : Message) (st : State) : Outcome State :=
  match m with
  | node_processing payload =>
      let! nodeId := get_field "nodeId" payload in
      let! status := get_field "status" payload in
      let! _ := log_line toString nodeId status in
      step rev (NodeProcessing nodeId status) st
  | execution_complete payload =>
      let! res := get_field "result" payload in
      step rev (ExecutionComplete res) st
  end.

(** ** Sample messages *)

Definition status_message : JsVal :=
  JObj [("nodeId", JStr "n3"); ("status", JStr "completed")].

(** A status that is an object with a property named [toString]. *)
Definition odd_status_message : JsVal :=
  JObj [("nodeId", JStr "n3");
        ("status", JObj [("toString", JStr "completed")])].

(** A catalog whose second entry is named by such an object. *)
Definition odd_catalog : list JsVal :=
  [catalog_tool; JObj [("name", JObj [("toString", JNull)])]].

(** * Properties *)

(** ** JavaScript values and lists *)

Lemma strict_eq_string_spec (v : JsVal) (lit : string) :
  strict_eq_string v lit = true ↔ v = JStr lit.
Proof.
  destruct v as [| | b | n | s | items | props]; simpl;
    try (split; [discriminate | congruence]).
  rewrite String.eqb_eq. split; congruence.
Qed.

Lemma strict_eq_string_false (v : JsVal) (lit : string) :
  strict_eq_string v lit = false ↔ v ≠ JStr lit.
Proof.
  rewrite <- strict_eq_string_spec. destruct (strict_eq_string v lit); split;
    congruence.
Qed.

Lemma lookup_map {A B} (f : A → B) (l : list A) (i : nat) :
  map f l !! i = f <$> l !! i.
Proof.
  revert i. induction l as [|a l IH]; intros [|i]; simpl; auto.
Qed.



(** ** The status overlay *)

Lemma backgroundColor_with (c : JsVal) (node : Node) :
  backgroundColor (with_backgroundColor c node) = c.
Proof. unfold backgroundColor. simpl. by rewrite lookup_insert_eq. Qed.



Lemma runtimeStatus_idle (node : Node) :
  backgroundColor node = JUndefined → runtimeStatus node = idle.
Proof. unfold runtimeStatus. by intros ->. Qed.


(** C2. Whatever the graph and the [result], the [execution_complete]
    handler returns, stores [result] as the run's output and leaves every
    node of the graph, in place and otherwise untouched, with no colour,
    that is with status [idle]; the colour a node had before, if any, plays
    no part. *)
Theorem execution_complete_resets_every_node
    (rev : Revision) (st : State) (res : JsVal) :
  ∃ st', step rev (ExecutionComplete res) st = Returns st'
    ∧ result st' = res
    ∧ length (nodes st') = length (nodes st)
    ∧ (∀ node', node' ∈ nodes st' →
         backgroundColor node' = JUndefined ∧ runtimeStatus node' = idle)
    ∧ (∀ i node, nodes st !! i = Some node →
         ∃ node', nodes st' !! i = Some node'
           ∧ id node' = id node ∧ type node' = type node
           ∧ data node' = data node ∧ position node' = position node).
Proof.
  eexists. split; [reflexivity|]. simpl.
  split; [done|]. split; [by rewrite length_map|]. split.
  - intros node' Hin. apply list_elem_of_In, in_map_iff in Hin.
    destruct Hin as (node & <- & _).
    pose proof (backgroundColor_with JUndefined node) as Hc.
    split; [done|]. by apply runtimeStatus_idle.
  - intros i node Hi. exists (with_backgroundColor JUndefined node).
    by rewrite lookup_map, Hi.
Qed.



(** ** The parameter editor *)

Arguments JSON.parse : simpl never.

Lemma parse_throws_SyntaxError (text : string) (e : JsError) :
  JSON.parse text = Throws e → e = SyntaxError.
Proof.
  unfold JSON.parse. repeat case_match; congruence.
Qed.

Lemma parse_empty_object : JSON.parse "{}" = Returns (JObj []).
Proof. reflexivity. Qed.

(** Every field is on exactly one side of the rule. *)
Lemma field_cases (field : option string) :
  empty_or_well_formed field ∨ ∃ text, malformed field text.
Proof.
  destruct field as [text|]; [|by left; left].
  destruct (String.eqb text EmptyString) eqn:He; [by left; left; simpl; rewrite He|].
  apply String.eqb_neq in He.
  destruct (JSON.parse text) as [v|e] eqn:Hp.
  - left. right. by exists text, v.
  - right. exists text. apply parse_throws_SyntaxError in Hp as He'.
    subst e. by repeat split.
Qed.

Lemma or_else_malformed (field : option string) (text fallback : string) :
  malformed field text → CanvasChecked.or_else field fallback = text.
Proof.
  intros (-> & Hne & _). simpl.
  apply String.eqb_neq in Hne. by rewrite Hne.
Qed.

Lemma or_else_parses (field : option string) :
  empty_or_well_formed field →
  ∃ v, JSON.parse (CanvasChecked.or_else field "{}") = Returns v.
Proof.
  intros [Hf | (text & v & -> & Hp)].
  - exists (JObj []). destruct field as [text|]; simpl in *; [|done].
    by rewrite Hf.
  - simpl. destruct (String.eqb text EmptyString); [by exists (JObj [])|].
    by exists v.
Qed.

Lemma nodes_close_modal (st : State) : nodes (close_modal st) = nodes st.
Proof. done. Qed.

Lemma write_parameters_lookup (sel : Node) (draft : gmap string string)
    (ns : list Node) (i : nat) (node : Node) :
  ns !! i = Some node →
  ∃ node', write_parameters sel draft ns !! i = Some node'
    ∧ id node' = id node ∧ type node' = type node
    ∧ label (data node') = label (data node)
    ∧ position node' = position node ∧ style node' = style node
    ∧ (id node = id sel → parameters (data node') = draft)
    ∧ (id node ≠ id sel → node' = node).
Proof.
  intros Hi. unfold write_parameters. rewrite lookup_map, Hi. simpl.
  destruct (String.eqb (id node) (id sel)) eqn:Hid.
  - apply String.eqb_eq in Hid. eexists. split; [reflexivity|].
    repeat split; try done.
  - apply String.eqb_neq in Hid. exists node. repeat split; try done.
Qed.

Lemma write_parameters_elem (sel : Node) (draft : gmap string string)
    (ns : list Node) (node' : Node) :
  node' ∈ write_parameters sel draft ns → id node' = id sel →
  parameters (data node') = draft.
Proof.
  intros Hin Hid. apply list_elem_of_lookup in Hin as [i Hi].
  unfold write_parameters in Hi. rewrite lookup_map in Hi.
  destruct (ns !! i) as [node|] eqn:Hn; [|done]. simpl in Hi.
  destruct (String.eqb (id node) (id sel)) eqn:He.
  - by injection Hi as <-.
  - injection Hi as <-. apply String.eqb_neq in He. done.
Qed.

(** What a committed submit leaves behind, in either revision. *)
Lemma committed (sel : Node) (st : State) :
  let st' := close_modal (setNodes (write_parameters sel (nodeParams st)) st) in
  length (nodes st') = length (nodes st)
  ∧ (∀ i node, nodes st !! i = Some node →
       ∃ node', nodes st' !! i = Some node'
         ∧ id node' = id node
         ∧ label (data node') = label (data node)
         ∧ position node' = position node
         ∧ (id node = id sel → parameters (data node') = nodeParams st)
         ∧ (id node ≠ id sel → node' = node))
  ∧ (∀ node', node' ∈ doc_nodes_of (document st') → id node' = id sel →
       parameters (data node') = nodeParams st).
Proof.
  simpl. split; [by unfold write_parameters; rewrite length_map|]. split.
  - intros i node Hi.
    destruct (write_parameters_lookup sel (nodeParams st) _ i node Hi)
      as (node' & ? & ? & ? & ? & ? & ? & ? & ?).
    exists node'. by repeat split.
  - intros node'. apply write_parameters_elem.
Qed.

(** C8. With the editor open on a node, a submit in src/FlowCanvas.js
    always succeeds; it puts the draft, as it is, in the place of the
    parameters of the node carrying the selected id (nothing of the previous
    map is merged in), keeps the node's id, tool name and position and
    every other node.  A save pressed after the submit posts one document,
    [{ id: 'workflow1', nodes, edges }], whose nodes stand where the nodes
    of the graph stood: at the place of a node carrying the selected id
    the document holds that node with the draft as its parameters, and at
    every other place the node as it was. *)
Theorem submit_replaces_parameters (st : State) (sel : Node) :
  selectedNode st = Some sel →
  ∃ st', step Canvas_revision ParamSubmit st = Returns st'
    ∧ length (nodes st') = length (nodes st)
    ∧ (∀ i node, nodes st !! i = Some node →
         ∃ node', nodes st' !! i = Some node'
           ∧ id node' = id node
           ∧ label (data node') = label (data node)
           ∧ position node' = position node
           ∧ (id node = id sel → parameters (data node') = nodeParams st)
           ∧ (id node ≠ id sel → node' = node))
    ∧ (∀ node', node' ∈ doc_nodes_of (document st') → id node' = id sel →
         parameters (data node') = nodeParams st)
    ∧ ∃ st'' ns,
        run Canvas_revision [ParamSubmit; Save] st = Returns st''
        ∧ posted st'' = posted st ++ [SaveWorkflow "workflow1" ns (edges st)]
        ∧ length ns = length (nodes st)
        ∧ ∀ i node, nodes st !! i = Some node →
            ∃ node', ns !! i = Some node'
              ∧ id node' = id node
              ∧ label (data node') = label (data node)
              ∧ position node' = position node
              ∧ (id node = id sel → parameters (data node') = nodeParams st)
              ∧ (id node ≠ id sel → node' = node).
Proof.
  intros Hsel.
  assert (step Canvas_revision ParamSubmit st
          = Returns (close_modal
                       (setNodes (write_parameters sel (nodeParams st)) st)))
    as Hstep.
  { simpl. unfold Canvas.handleParamSubmit. rewrite Hsel. reflexivity. }
  destruct (committed sel st) as (Hlen & Hnodes & Hdoc).
  eexists. split; [exact Hstep|].
  split; [exact Hlen|]. split; [exact Hnodes|]. split; [exact Hdoc|].
  eexists _, _. split.
  - change (run Canvas_revision [ParamSubmit; Save] st)
      with (bind (step Canvas_revision ParamSubmit st)
              (λ st1, run Canvas_revision [Save] st1)).
    rewrite Hstep. reflexivity.
  - split; [reflexivity|]. split; [exact Hlen | exact Hnodes].
Qed.

(** The same law in the revision with validation, where a submit succeeds
    when [validateRequiredFields] answers [true]. *)
Lemma validated_submit_writes_draft
    (message : string → string) (st : State) (sel : Node) :
  selectedNode st = Some sel →
  CanvasChecked.validateRequiredFields message (nodeParams st)
    (label (data sel)) st = (true, st) →
  ∃ st', step (CanvasChecked_revision message) ParamSubmit st = Returns st'
    ∧ length (nodes st') = length (nodes st)
    ∧ (∀ i node, nodes st !! i = Some node →
         ∃ node', nodes st' !! i = Some node'
           ∧ id node' = id node
           ∧ label (data node') = label (data node)
           ∧ position node' = position node
           ∧ (id node = id sel → parameters (data node') = nodeParams st)
           ∧ (id node ≠ id sel → node' = node))
    ∧ (∀ node', node' ∈ doc_nodes_of (document st') → id node' = id sel →
         parameters (data node') = nodeParams st).
Proof.
  intros Hsel Hvalid. eexists. split.
  - simpl. unfold CanvasChecked.handleParamSubmit.
    rewrite Hsel, Hvalid. reflexivity.
  - apply committed.
Qed.

(** In the revision with validation, a submit on an [llm_tool] node whose
    draft has no [apiKey], or an empty one, raises the alert and changes
    nothing else: the modal stays open on the same node, the draft and the
    graph are as before. *)
Lemma checked_submit_requires_apiKey
    (message : string → string) (st : State) (sel : Node) :
  selectedNode st = Some sel →
  label (data sel) = JStr "llm_tool" →
  CanvasChecked.falsy (nodeParams st !! "apiKey") = true →
  ∃ st', step (CanvasChecked_revision message) ParamSubmit st = Returns st'
    ∧ alerts st' = alerts st ++ [JStr "API Key is required for llm_tool"]
    ∧ showModal st' = showModal st
    ∧ selectedNode st' = selectedNode st
    ∧ nodeParams st' = nodeParams st
    ∧ nodes st' = nodes st
    ∧ edges st' = edges st.
Proof.
  intros Hsel Htool Hkey. eexists. split.
  - simpl. unfold CanvasChecked.handleParamSubmit,
      CanvasChecked.validateRequiredFields.
    rewrite Hsel, Htool, Hkey. reflexivity.
  - by repeat split.
Qed.

(** C1, on src/FlowCanvas.js.  The editor is open on an [llm_tool] node
    that stores a key and the draft holds an empty [apiKey]: the submit
    succeeds without any alert, closes the modal, empties the draft and
    overwrites the stored key with the empty one. *)
Theorem Canvas_submit_accepts_empty_apiKey :
  label (data llm_node) = JStr "llm_tool"
  ∧ nodeParams llm_cleared !! "apiKey" = Some EmptyString
  ∧ ∃ st', step Canvas_revision ParamSubmit llm_cleared = Returns st'
      ∧ alerts st' = []
      ∧ showModal st' = false
      ∧ nodeParams st' = ∅
      ∧ nodes llm_cleared
        = [sample_node "n1" "llm_tool" {[ "apiKey" := "sk-live" ]}]
      ∧ nodes st'
        = [sample_node "n1" "llm_tool" {[ "apiKey" := EmptyString ]}].
Proof.
  split; [done|]. split; [done|]. eexists. split; [reflexivity|].
  by repeat split.
Qed.

(** The same input in the revision with validation. *)
Example checked_submit_rejects_empty_apiKey :
  step (CanvasChecked_revision engine_message) ParamSubmit llm_cleared
  = Returns (alert (JStr "API Key is required for llm_tool") llm_cleared).
Proof. reflexivity. Qed.

(** A failed check of the two free-form fields raises one alert and
    changes nothing else. *)
Lemma alert_only (v : JsVal) (st : State) :
  let st' := alert v st in
  alerts st' = alerts st ++ [v]
  ∧ showModal st' = showModal st ∧ selectedNode st' = selectedNode st
  ∧ nodeParams st' = nodeParams st ∧ nodes st' = nodes st
  ∧ edges st' = edges st.
Proof. by repeat split. Qed.

(** C4. In the revision with validation, for a submit on a
    [fetch_from_rest_api_tool] node:
    - [headers] holding text that does not parse makes the submit fail with
      the alert naming [headers] and carrying the parser's message;
    - otherwise [body] holding text that does not parse makes it fail with
      the alert naming [body] and carrying the parser's message;
    - a failed submit changes the alerts only;
    - a field that is absent or empty passes: when each of the two fields
      is absent, empty or parses, validation answers [true] and the draft
      is committed. *)
Theorem fetch_tool_fields_must_parse
    (message : string → string) (st : State) (sel : Node) :
  selectedNode st = Some sel →
  label (data sel) = JStr "fetch_from_rest_api_tool" →
  let headers := nodeParams st !! "headers" in
  let body := nodeParams st !! "body" in
  let submit := step (CanvasChecked_revision message) ParamSubmit st in
  (∀ text, malformed headers text →
     submit
     = Returns (alert (JStr ("Invalid JSON in headers: " +:+ message text)) st))
  ∧ (∀ text, empty_or_well_formed headers → malformed body text →
     submit
     = Returns (alert (JStr ("Invalid JSON in body: " +:+ message text)) st))
  ∧ (empty_or_well_formed headers → empty_or_well_formed body →
     CanvasChecked.validateRequiredFields message (nodeParams st)
       (label (data sel)) st = (true, st)
     ∧ submit
       = Returns
           (close_modal
              (setNodes (write_parameters sel (nodeParams st)) st))).
Proof.
  intros Hsel Htool headers body submit. subst submit. simpl.
  unfold CanvasChecked.handleParamSubmit, CanvasChecked.validateRequiredFields.
  rewrite Hsel, Htool. simpl. fold headers body. split; [|split].
  - intros text Hbad. rewrite (or_else_malformed _ _ _ Hbad).
    destruct Hbad as (_ & _ & ->). reflexivity.
  - intros text Hok Hbad. destruct (or_else_parses _ Hok) as [v ->].
    rewrite (or_else_malformed _ _ _ Hbad).
    destruct Hbad as (_ & _ & ->). reflexivity.
  - intros Hheaders Hbody.
    destruct (or_else_parses _ Hheaders) as [v ->].
    destruct (or_else_parses _ Hbody) as [w ->]. by split.
Qed.

(** Any JSON text passes, not only an object: [headers] holding an array
    and [body] left empty commit the draft. *)
Example fetch_submit_accepts_an_array :
  step (CanvasChecked_revision engine_message) ParamSubmit
    (editing fetch_node {[ "headers" := "[1, 2]"; "body" := EmptyString ]})
  = Returns
      (setNodes
         (λ _, [sample_node "n2" "fetch_from_rest_api_tool"
                  {[ "headers" := "[1, 2]"; "body" := EmptyString ]}])
         initial).
Proof. reflexivity. Qed.

(** The spec's scenario: [headers] holding the text [{not json]. *)
Example fetch_submit_rejects_bad_headers :
  step (CanvasChecked_revision engine_message) ParamSubmit fetch_bad_headers
  = Returns
      (alert (JStr "Invalid JSON in headers: Unexpected token in JSON")
         fetch_bad_headers).
Proof. reflexivity. Qed.

(** ** Saving *)

(** C5, refuted as stated.  A tool is dropped, the executor reports the
    node as processing, the user saves: the document handed to the save
    endpoint holds the node with its [type] and with the yellow status
    colour in its [style]. *)
Lemma saved_document_carries_status_colour :
  ∃ st' node,
    run Canvas_revision
      [Drop noon (drag (tool_payload "search_tool"));
       NodeProcessing (JStr "1700000000000-4fzyo82mv") (JStr "processing");
       Save]
      initial = Returns st'
    ∧ posted st' = [SaveWorkflow "workflow1" [node] []]
    ∧ id node = "1700000000000-4fzyo82mv"
    ∧ type node = "default"
    ∧ style node = Some {[ "backgroundColor" := JStr "yellow" ]}
    ∧ runtimeStatus node = processing.
Proof.
  eexists. eexists. split; [reflexivity|]. split; [reflexivity|].
  by repeat split.
Qed.

(** C5, amended.  Save always returns and posts the document
    [{ id: 'workflow1', nodes, edges }] whose nodes are the nodes of the
    graph as they are in memory, style included; so a node painted by a
    [node_processing] event is sent with that colour, and after
    [execution_complete] every node is sent with the colour undefined. *)
Theorem save_sends_nodes_as_they_are (rev : Revision) (st : State) :
  ∃ st', step rev Save st = Returns st'
    ∧ posted st' = posted st ++ [SaveWorkflow "workflow1" (nodes st) (edges st)]
    ∧ nodes st' = nodes st ∧ edges st' = edges st
    ∧ doc_nodes_of (document st) = nodes st
    ∧ (∀ nodeId status i node,
         nodes st !! i = Some node → nodeId = JStr (id node) →
         ∃ node',
           doc_nodes_of (document (on_node_processing nodeId status st)) !! i
           = Some node'
           ∧ id node' = id node
           ∧ backgroundColor node' = JStr (status_color status))
    ∧ (∀ res node',
         node' ∈ doc_nodes_of (document (on_execution_complete res st)) →
         backgroundColor node' = JUndefined).
Proof.
  eexists. split; [reflexivity|]. repeat split.
  - intros nodeId status i node Hi ->. simpl. rewrite lookup_map, Hi. simpl.
    rewrite String.eqb_refl.
    eexists. split; [reflexivity|]. split; [done|].
    apply backgroundColor_with.
  - intros res node' Hin. simpl in Hin.
    apply list_elem_of_In, in_map_iff in Hin. destruct Hin as (node & <- & _).
    apply backgroundColor_with.
Qed.

(** ** Dropping *)

Lemma not_json_is_no_tool : ¬ is_tool_payload "{not json".
Proof. intros (props & name & Hp & _). discriminate Hp. Qed.

(** C6, refuted as stated.  The payload [{not json] is no tool and the
    drop raises [SyntaxError]; the payload [null] is no tool and the drop
    raises [TypeError]; the payload [{}] is no tool and the drop inserts a
    node whose label is undefined. *)
Lemma drop_of_unparsable_payload_is_not_silent :
  ¬ is_tool_payload "{not json"
  ∧ step Canvas_revision (Drop noon (drag "{not json")) initial
    = Throws SyntaxError
  ∧ ¬ is_tool_payload "null"
  ∧ step Canvas_revision (Drop noon (drag "null")) initial = Throws TypeError
  ∧ ¬ is_tool_payload "{}"
  ∧ ∃ st', step Canvas_revision (Drop noon (drag "{}")) initial = Returns st'
      ∧ (label ∘ data) <$> nodes st' = [JUndefined].
Proof.
  split; [apply not_json_is_no_tool|]. split; [reflexivity|].
  split; [intros (props & name & Hp & _); discriminate Hp|].
  split; [reflexivity|].
  split.
  - intros (props & name & Hp & Hn). injection Hp as <-. discriminate Hn.
  - eexists. split; reflexivity.
Qed.

(** C6, amended.  A drop that carries nothing under the transfer key
    [application/reactflow], or the empty text, makes the handler return
    with the state it was given: no node is inserted, nothing is raised. *)
Theorem drop_without_payload_is_noop
    (rev : Revision) (env : Env) (event : DragEvent) (st : State) :
  dataTransfer event !! "application/reactflow" = None
  ∨ dataTransfer event !! "application/reactflow" = Some EmptyString →
  step rev (Drop env event) st = Returns st.
Proof.
  intros Hkey. simpl. unfold onDrop, getData. by destruct Hkey as [-> | ->].
Qed.

(** A payload written by [onDragStart] yields exactly one node, with the
    tool's name as label, no parameter and no colour. *)
Example drop_of_a_tool :
  step Canvas_revision (Drop noon (drag (tool_payload "search_tool"))) initial
  = Returns
      (setNodes
         (λ _, [{| id := "1700000000000-4fzyo82mv"; type := "default";
                   data := {| label := JStr "search_tool"; parameters := ∅ |};
                   position := {| x := hundred; y := hundred |};
                   style := None |}])
         initial).
Proof. reflexivity. Qed.

(** ** Connecting *)

Lemma connectionExists_spec (edge : Edge) (eds : list Edge) :
  connectionExists edge eds = true ↔
  ∃ el, el ∈ eds ∧ source el = source edge ∧ target el = target edge
    ∧ same_handle (sourceHandle el) (sourceHandle edge) = true
    ∧ same_handle (targetHandle el) (targetHandle edge) = true.
Proof.
  unfold connectionExists. rewrite existsb_exists. split.
  - intros (el & Hin & Hel). apply list_elem_of_In in Hin.
    rewrite !andb_true_iff, !String.eqb_eq in Hel.
    exists el. tauto.
  - intros (el & Hin & Hs & Ht & Hsh & Hth). exists el.
    split; [by apply list_elem_of_In|].
    rewrite !andb_true_iff, !String.eqb_eq. tauto.
Qed.

(** C7, refuted as stated.  After [a] has been connected to [b], with no
    handle named, connecting [a] to [b] again returns the edge list as it
    was: one edge, not two. *)
Lemma connect_twice_keeps_one_edge :
  ∃ st1 st2,
    step Canvas_revision (Connect a_to_b) initial = Returns st1
    ∧ length (edges st1) = 1
    ∧ step Canvas_revision (Connect a_to_b) st1 = Returns st2
    ∧ edges st2 = edges st1
    ∧ length (edges st2) = 1.
Proof.
  eexists. eexists. split; [reflexivity|]. split; [reflexivity|].
  split; [reflexivity|]. split; reflexivity.
Qed.

(** C7, amended.  Connecting always returns and leaves the nodes alone.
    For a connection whose source and target ids are not empty, equal ids
    included: if no edge of the graph has the same source, target and
    handles, exactly one edge is appended and the edge count grows by one;
    if one has, the edge list is unchanged. *)
Theorem connect_appends_unless_already_connected
    (rev : Revision) (params : Connection) (st : State) :
  conn_source params ≠ EmptyString → conn_target params ≠ EmptyString →
  ∃ st', step rev (Connect params) st = Returns st'
    ∧ nodes st' = nodes st
    ∧ (connectionExists (edge_of params) (edges st) = false →
         edges st' = edges st ++ [edge_of params]
         ∧ length (edges st') = S (length (edges st)))
    ∧ (connectionExists (edge_of params) (edges st) = true →
         edges st' = edges st).
Proof.
  intros Hs Ht. eexists. split; [reflexivity|]. simpl.
  apply String.eqb_neq in Hs, Ht. unfold addEdge. rewrite Hs, Ht. simpl.
  split; [done|]. split; intros ->; [|done].
  split; [done|]. rewrite length_app. simpl. lia.
Qed.

(** A self-loop is appended like any other first connection. *)
Example connect_self_loop :
  step Canvas_revision (Connect a_to_a) initial
  = Returns (setEdges (λ _, [edge_of a_to_a]) initial).
Proof. reflexivity. Qed.

(** ** Node ids *)

Lemma pretty_N_char_no_dash (d : N) : pretty_N_char d ≠ "-"%char.
Proof. unfold pretty_N_char. by repeat case_match. Qed.

Lemma pretty_N_go_dash_free (n : N) (s : string) :
  dash_free s → dash_free (pretty_N_go n s).
Proof.
  revert s. induction (N.lt_wf_0 n) as [n _ IH]. intros s Hs.
  destruct (decide (n = 0%N)) as [-> | Hn].
  - by rewrite pretty_N_go_0.
  - rewrite pretty_N_go_step by lia. apply IH.
    + apply N.div_lt; lia.
    + split; [apply pretty_N_char_no_dash | done].
Qed.

Lemma pretty_N_dash_free (n : N) : dash_free (pretty n).
Proof.
  unfold pretty, pretty_N. case_decide.
  - by repeat split.
  - by apply pretty_N_go_dash_free.
Qed.

(** Two texts without a dash, each followed by a dash and a tail: equal
    wholes have equal heads and equal tails. *)
Lemma split_at_first_dash (a b s t : string) :
  dash_free a → dash_free b →
  a +:+ "-" +:+ s = b +:+ "-" +:+ t → a = b ∧ s = t.
Proof.
  revert b. induction a as [|c a IH]; intros [|d b] Ha Hb Heq; cbn in *.
  - by injection Heq as Heq.
  - injection Heq as Hd _. destruct Hb as [Hb _]. by rewrite Hd in Hb.
  - injection Heq as Hc _. destruct Ha as [Ha _]. done.
  - injection Heq as Hc Heq. destruct Ha as [_ Ha], Hb as [_ Hb].
    destruct (IH b Ha Hb Heq) as [Hab Hst]. by rewrite Hc, Hab.
Qed.

Global Instance id_of_stamp_inj : Inj (=) (=) id_of_stamp.
Proof.
  intros [n s] [m t] Heq. unfold id_of_stamp in Heq. simpl in Heq.
  apply split_at_first_dash in Heq as [Hn ->]; try apply pretty_N_dash_free.
  by apply (inj pretty) in Hn as ->.
Qed.

Lemma uniqueId_stamp (env : Env) : uniqueId env = id_of_stamp (stamp env).
Proof. reflexivity. Qed.

(** Two ids are equal exactly when they were made in the same millisecond
    from draws that agree on the nine characters kept. *)
Lemma uniqueId_collides_iff (env1 env2 : Env) :
  uniqueId env1 = uniqueId env2 ↔
  Date_now env1 = Date_now env2
  ∧ substring 2 9 (Math_random_toString36 env1)
    = substring 2 9 (Math_random_toString36 env2).
Proof.
  rewrite !uniqueId_stamp. split.
  - intros Heq%(inj id_of_stamp). by injection Heq.
  - intros [Hn Hs]. unfold stamp. by rewrite Hn, Hs.
Qed.

Lemma ids_with_backgroundColor (f : Node → bool) (c : JsVal) (ns : list Node) :
  id <$> map (λ node, if f node then with_backgroundColor c node else node) ns
  = id <$> ns.
Proof.
  induction ns as [|node ns IH]; csimpl; [done|].
  rewrite IH. by destruct (f node).
Qed.

Lemma ids_write_parameters (sel : Node) (draft : gmap string string)
    (ns : list Node) :
  id <$> write_parameters sel draft ns = id <$> ns.
Proof.
  unfold write_parameters.
  induction ns as [|node ns IH]; csimpl; [done|].
  rewrite IH. by destruct (String.eqb (id node) (id sel)).
Qed.

Lemma Canvas_keeps_ids : keeps_ids Canvas_revision.
Proof.
  split; [|split].
  - intros st st'. simpl. unfold Canvas.handleParamSubmit.
    destruct (selectedNode st) as [sel|]; [|destruct (nodes st) eqn:Hn].
    + intros [= <-]. simpl. apply ids_write_parameters.
    + intros [= <-]. simpl. by rewrite Hn.
    + discriminate.
  - by intros [message|] st.
  - by intros [message|] st.
Qed.

Lemma validate_keeps_nodes (message : string → string)
    (params : gmap string string) (toolName : JsVal) (st : State) :
  nodes (CanvasChecked.validateRequiredFields message params toolName st).2
  = nodes st.
Proof.
  unfold CanvasChecked.validateRequiredFields. by repeat case_match.
Qed.

Lemma CanvasChecked_keeps_ids (message : string → string) :
  keeps_ids (CanvasChecked_revision message).
Proof.
  split; [|split].
  - intros st st'. simpl. unfold CanvasChecked.handleParamSubmit.
    destruct (selectedNode st) as [sel|]; [|discriminate].
    pose proof (validate_keeps_nodes message (nodeParams st)
                  (label (data sel)) st) as Hv.
    destruct (CanvasChecked.validateRequiredFields _ _ _ _) as [valid st1].
    simpl in Hv. destruct valid; intros [= <-]; simpl.
    + rewrite Hv. apply ids_write_parameters.
    + by rewrite Hv.
  - by intros [message'|] st.
  - done.
Qed.

(** One step appends at most the id made from its stamp. *)
Lemma step_ids (rev : Revision) (e : Event) (st st' : State) :
  keeps_ids rev → step rev e st = Returns st' →
  ∃ kept, kept `sublist_of` drop_stamps [e]
    ∧ id <$> nodes st' = (id <$> nodes st) ++ (id_of_stamp <$> kept).
Proof.
  intros (Hsubmit & Hsave & Hexecute) Hstep.
  destruct e; simpl in Hstep;
    try (injection Hstep as <-; exists []; split; [done|];
         rewrite app_nil_r; simpl).
  - apply (ids_with_backgroundColor (λ node, strict_eq_string nodeId (id node))).
  - apply (ids_with_backgroundColor (λ _, true)).
  - unfold onDrop in Hstep.
    destruct (String.eqb _ _).
    + injection Hstep as <-. exists []. split; [apply sublist_nil_l|].
      by rewrite app_nil_r.
    + destruct (JSON.parse _) as [tool|]; [|discriminate]. simpl in Hstep.
      destruct (get_name tool) as [name|]; [|discriminate]. simpl in Hstep.
      injection Hstep as <-. exists [stamp env]. split; [done|].
      simpl. by rewrite fmap_app.
  - done.
  - done.
  - done.
  - exists []. split; [done|]. rewrite app_nil_r. by apply Hsubmit.
  - done.
  - done.
  - done.
  - apply Hsave.
  - apply (ids_with_backgroundColor (λ _, true)).
  - apply Hexecute.
Qed.

Lemma run_ids (rev : Revision) (es : list Event) (st st' : State) :
  keeps_ids rev → run rev es st = Returns st' →
  ∃ kept, kept `sublist_of` drop_stamps es
    ∧ id <$> nodes st' = (id <$> nodes st) ++ (id_of_stamp <$> kept).
Proof.
  intros Hrev. revert st. induction es as [|e es IH]; intros st Hrun.
  - injection Hrun as <-. exists []. split; [done|]. by rewrite app_nil_r.
  - simpl in Hrun. destruct (step rev e st) as [st1|] eqn:Hstep; [|done].
    simpl in Hrun.
    destruct (step_ids rev e st st1 Hrev Hstep) as (k1 & Hk1 & Hids1).
    destruct (IH st1 Hrun) as (k2 & Hk2 & Hids2).
    exists (k1 ++ k2). split.
    + change (e :: es) with ([e] ++ es). unfold drop_stamps.
      rewrite omap_app. by apply sublist_app.
    + by rewrite Hids2, Hids1, fmap_app, app_assoc.
Qed.

Lemma run_distinct_ids (rev : Revision) (es : list Event) (st' : State) :
  keeps_ids rev → NoDup (drop_stamps es) → run rev es initial = Returns st' →
  NoDup (id <$> nodes st').
Proof.
  intros Hrev Hstamps Hrun.
  destruct (run_ids rev es initial st' Hrev Hrun) as (kept & Hkept & ->).
  simpl. apply (NoDup_fmap_2 _). by eapply sublist_NoDup.
Qed.

(** C9, refuted as stated.  Two tools dropped in the same millisecond,
    with two different draws of [Math.random] that agree on their first
    nine digits, get the same id. *)
Lemma two_drops_in_one_tick_collide :
  Math_random_toString36 noon ≠ Math_random_toString36 noon_again
  ∧ ∃ st',
      run Canvas_revision
        [Drop noon (drag (tool_payload "search_tool"));
         Drop noon_again (drag (tool_payload "llm_tool"))]
        initial = Returns st'
      ∧ id <$> nodes st'
        = ["1700000000000-4fzyo82mv"; "1700000000000-4fzyo82mv"]
      ∧ ¬ NoDup (id <$> nodes st').
Proof.
  split; [discriminate|]. eexists. split; [reflexivity|].
  split; [reflexivity|]. simpl. rewrite NoDup_cons. intros [Hnotin _].
  apply Hnotin. apply list_elem_of_here.
Qed.

(** C9, amended.  In src/FlowCanvas.js, over any session (drops mixed
    with any other events) in which no two drops see both the same
    millisecond and the same nine characters of the random draw, the ids of
    the nodes of the graph are pairwise distinct. *)
Theorem distinct_stamps_give_distinct_ids (es : list Event) (st' : State) :
  NoDup (drop_stamps es) →
  run Canvas_revision es initial = Returns st' →
  NoDup (id <$> nodes st').
Proof. apply run_distinct_ids, Canvas_keeps_ids. Qed.

(** The same in the revision with validation. *)
Lemma validated_session_ids_distinct
    (message : string → string) (es : list Event) (st' : State) :
  NoDup (drop_stamps es) →
  run (CanvasChecked_revision message) es initial = Returns st' →
  NoDup (id <$> nodes st').
Proof. apply run_distinct_ids, CanvasChecked_keeps_ids. Qed.

(** * The theorems at sample inputs *)



Lemma submit_replaces_parameters_witness :
  selectedNode search_edited = Some search_node
  ∧ parameters (data search_node) = {[ "query" := "old"; "limit" := "5" ]}
  ∧ ∃ st', step Canvas_revision ParamSubmit search_edited = Returns st'
      ∧ (∃ node', nodes st' !! 0 = Some node'
           ∧ parameters (data node') = {[ "query" := "new" ]})
      ∧ ∃ st'' ns,
          run Canvas_revision [ParamSubmit; Save] search_edited = Returns st''
          ∧ posted st'' = [SaveWorkflow "workflow1" ns []]
          ∧ ∃ node', ns !! 0 = Some node'
              ∧ id node' = "n3"
              ∧ parameters (data node') = {[ "query" := "new" ]}.
Proof.
  split; [reflexivity|]. split; [reflexivity|].
  destruct (submit_replaces_parameters search_edited search_node eq_refl)
    as (st' & Hstep & _ & Hnodes & _ & st'' & ns & Hrun & Hposted & _ & Hdoc).
  destruct (Hnodes 0 search_node eq_refl) as (node' & Hi & _ & _ & _ & Hp & _).
  destruct (Hdoc 0 search_node eq_refl) as (saved & Hj & Hid & _ & _ & Hq & _).
  exists st'. split; [exact Hstep|]. split.
  - exists node'. split; [exact Hi | exact (Hp eq_refl)].
  - exists st'', ns. split; [exact Hrun|]. split; [exact Hposted|].
    exists saved. split; [exact Hj|]. split; [exact Hid | exact (Hq eq_refl)].
Defined.

Lemma fetch_tool_fields_must_parse_witness :
  selectedNode fetch_bad_headers = Some fetch_node
  ∧ label (data fetch_node) = JStr "fetch_from_rest_api_tool"
  ∧ malformed (nodeParams fetch_bad_headers !! "headers") "{not json"
  ∧ step (CanvasChecked_revision engine_message) ParamSubmit fetch_bad_headers
    = Returns
        (alert (JStr ("Invalid JSON in headers: "
                      +:+ engine_message "{not json"))
           fetch_bad_headers).
Proof.
  assert (malformed (nodeParams fetch_bad_headers !! "headers") "{not json")
    as Hbad.
  { split; [reflexivity|]. split; [discriminate | reflexivity]. }
  split; [reflexivity|]. split; [reflexivity|]. split; [exact Hbad|].
  exact (proj1 (fetch_tool_fields_must_parse engine_message fetch_bad_headers
                  fetch_node eq_refl eq_refl) "{not json" Hbad).
Defined.

Lemma drop_without_payload_is_noop_witness :
  dataTransfer foreign_drag !! "application/reactflow" = None
  ∧ step Canvas_revision (Drop noon foreign_drag) one_node_graph
    = Returns one_node_graph.
Proof.
  split; [reflexivity|].
  exact (drop_without_payload_is_noop Canvas_revision noon foreign_drag
           one_node_graph (or_introl eq_refl)).
Defined.

Lemma connect_appends_unless_already_connected_witness :
  conn_source a_to_a ≠ EmptyString
  ∧ conn_target a_to_a ≠ EmptyString
  ∧ ∃ st', step Canvas_revision (Connect a_to_a) initial = Returns st'
      ∧ edges st' = [edge_of a_to_a].
Proof.
  assert (conn_source a_to_a ≠ EmptyString) as Hs by discriminate.
  assert (conn_target a_to_a ≠ EmptyString) as Ht by discriminate.
  split; [exact Hs|]. split; [exact Ht|].
  destruct (connect_appends_unless_already_connected Canvas_revision a_to_a
              initial Hs Ht) as (st' & Hstep & _ & Hnew & _).
  exists st'. split; [exact Hstep|]. exact (proj1 (Hnew eq_refl)).
Defined.

Lemma distinct_stamps_give_distinct_ids_witness :
  NoDup (drop_stamps two_drops)
  ∧ ∃ st', run Canvas_revision two_drops initial = Returns st'
      ∧ id <$> nodes st'
        = ["1700000000000-4fzyo82mv"; "1700000000001-4fzyo82mv"]
      ∧ NoDup (id <$> nodes st').
Proof.
  assert (NoDup (drop_stamps two_drops)) as Hstamps.
  { apply (bool_decide_unpack _). vm_compute. exact I. }
  split; [exact Hstamps|]. eexists. split; [reflexivity|].
  split; [reflexivity|].
  exact (distinct_stamps_give_distinct_ids two_drops _ Hstamps eq_refl).
Defined.

(** * Sessions: what the handlers never do *)

Lemma Forall2_map_r {A} (R : A → A → Prop) (f : A → A) (l : list A) :
  (∀ a, R a (f a)) → Forall2 R l (map f l).
Proof. intros HR. induction l; simpl; constructor; auto. Qed.

Lemma Forall2_same {A} (R : A → A → Prop) (l : list A) :
  (∀ a, R a a) → Forall2 R l l.
Proof. intros HR. induction l; constructor; auto. Qed.

Lemma kept_by_refl (R : Node → Node → Prop) (ns : list Node) :
  (∀ node, R node node) → kept_by R ns ns.
Proof.
  intros HR. exists ns, []. split; [by rewrite app_nil_r|].
  by apply Forall2_same.
Qed.

Lemma kept_by_trans (R : Node → Node → Prop) (a b c : list Node) :
  (∀ x y z, R x y → R y z → R x z) →
  kept_by R a b → kept_by R b c → kept_by R a c.
Proof.
  intros HR (b1 & addb & -> & Hab) (c1 & addc & -> & Hbc).
  apply Forall2_app_inv_l in Hbc as (c11 & c12 & Hb1 & _ & ->).
  exists c11, (c12 ++ addc). split; [by rewrite app_assoc|].
  revert c11 Hb1. induction Hab as [|x y a b1 Hxy Hab IH]; intros c11 Hb1.
  - inversion Hb1. constructor.
  - inversion Hb1 as [|? z ? c11' Hyz Hrest]; subst. constructor; eauto.
Qed.

Lemma kept_by_lookup (R : Node → Node → Prop) (ns ns' : list Node)
    (i : nat) (node : Node) :
  kept_by R ns ns' → ns !! i = Some node →
  ∃ node', ns' !! i = Some node' ∧ R node node'.
Proof.
  intros (ns1 & added & -> & HR) Hi.
  destruct (Forall2_lookup_l _ _ _ _ _ HR Hi) as (node' & Hi' & Hnode).
  exists node'. split; [|done]. by apply lookup_app_l_Some.
Qed.

Lemma kept_by_impl (R Q : Node → Node → Prop) (ns ns' : list Node) :
  (∀ a b, R a b → Q a b) → kept_by R ns ns' → kept_by Q ns ns'.
Proof.
  intros HRQ (ns1 & added & -> & HR). exists ns1, added. split; [done|].
  eapply Forall2_impl; eauto.
Qed.

(** [validateRequiredFields] either answers [true] and leaves the state
    alone, or answers [false] after exactly one alert. *)
Lemma validate_verdict (message : string → string)
    (params : gmap string string) (toolName : JsVal) (st : State) :
  CanvasChecked.validateRequiredFields message params toolName st = (true, st)
  ∨ ∃ text,
      CanvasChecked.validateRequiredFields message params toolName st
      = (false, alert (JStr text) st).
Proof.
  unfold CanvasChecked.validateRequiredFields.
  repeat case_match; eauto.
Qed.

(** One step: every node of the graph is still there, touched at most the
    way the event allows, and only a drop adds a node, one at most. *)
Lemma step_nodes (rev : Revision) (e : Event) (st st' : State) :
  shipped rev → step rev e st = Returns st' →
  ∃ ns1 added, nodes st' = ns1 ++ added
    ∧ Forall2 (touch e) (nodes st) ns1
    ∧ length added ≤ (if is_drop e then 1 else 0)
    ∧ Forall (λ node, style node = None) added.
Proof.
  intros Hrev Hstep.
  assert (∀ ns : list Node, Forall2 (touch e) ns ns) as Hsame.
  { intros ns. apply Forall2_same. constructor. }
  assert (∀ c (f : Node → bool) (ns : list Node), paints e = true →
            c = JUndefined ∨ (∃ status, c = JStr (status_color status)) →
            Forall2 (touch e) ns
              (map (λ node, if f node then with_backgroundColor c node
                            else node) ns)) as Hpaint.
  { intros c f ns He Hc. apply Forall2_map_r. intros node.
    destruct (f node); by constructor. }
  assert (∀ sel draft (ns : list Node), is_submit e = true →
            Forall2 (touch e) ns (write_parameters sel draft ns)) as Hwrite.
  { intros sel draft ns He. apply Forall2_map_r. intros node.
    destruct (String.eqb _ _); by constructor. }
  destruct e; simpl in Hstep;
    try (injection Hstep as <-; exists (nodes st), []; simpl;
         rewrite app_nil_r; split; [done|]; split; [apply Hsame | split; [lia | constructor]]).
  - injection Hstep as <-. eexists _, []. rewrite app_nil_r.
    split; [reflexivity|]. split; [|split; [simpl; lia | constructor]].
    apply (Hpaint _ (λ node, strict_eq_string nodeId (id node))); eauto.
  - injection Hstep as <-. eexists _, []. rewrite app_nil_r.
    split; [reflexivity|]. split; [|split; [simpl; lia | constructor]].
    apply (Hpaint _ (λ _, true)); eauto.
  - unfold onDrop in Hstep. destruct (String.eqb _ _).
    + injection Hstep as <-. exists (nodes st), []. rewrite app_nil_r.
      split; [done|]. split; [apply Hsame | split; [simpl; lia | constructor]].
    + destruct (JSON.parse _) as [tool|]; [|discriminate]. simpl in Hstep.
      destruct (get_name tool) as [name|]; [|discriminate]. simpl in Hstep.
      injection Hstep as <-. eexists (nodes st), [_].
      split; [reflexivity|]. split; [apply Hsame|].
      split; [simpl; lia | by repeat constructor].
  - destruct Hrev as [-> | [message ->]]; simpl in Hstep.
    + unfold Canvas.handleParamSubmit in Hstep.
      destruct (selectedNode st) as [sel|]; [|destruct (nodes st) eqn:Hn].
      * injection Hstep as <-. eexists _, []. rewrite app_nil_r.
        split; [reflexivity|].
        split; [by apply Hwrite | split; [simpl; lia | constructor]].
      * injection Hstep as <-. exists [], []. simpl. rewrite Hn.
        split; [done|]. split; [constructor | split; [lia | constructor]].
      * discriminate.
    + unfold CanvasChecked.handleParamSubmit in Hstep.
      destruct (selectedNode st) as [sel|]; [|discriminate].
      destruct (validate_verdict message (nodeParams st) (label (data sel)) st)
        as [Hv | [text Hv]]; rewrite Hv in Hstep; simpl in Hstep;
        injection Hstep as <-; eexists _, []; rewrite app_nil_r;
        (split; [reflexivity|]);
        (split; [|split; [simpl; lia | constructor]]).
      * by apply Hwrite.
      * apply Hsame.
  - destruct Hrev as [-> | [message ->]], r; simpl in Hstep;
      injection Hstep as <-; exists (nodes st), []; rewrite app_nil_r;
      (split; [done|]);
      (split; [apply Hsame | split; [simpl; lia | constructor]]).
  - injection Hstep as <-. eexists _, []. rewrite app_nil_r.
    split; [reflexivity|]. split; [|split; [simpl; lia | constructor]].
    apply (Hpaint _ (λ _, true)); eauto.
  - destruct Hrev as [-> | [message ->]], r; simpl in Hstep;
      injection Hstep as <-; exists (nodes st), []; rewrite app_nil_r;
      (split; [done|]);
      (split; [apply Hsame | split; [simpl; lia | constructor]]).
Qed.

(** A whole session, for a relation every allowed touch respects. *)
Lemma run_kept (R : Node → Node → Prop) (allowed : Event → bool)
    (rev : Revision) (es : list Event) (st st' : State) :
  (∀ node, R node node) → (∀ x y z, R x y → R y z → R x z) →
  (∀ e a b, allowed e = true → touch e a b → R a b) →
  shipped rev → Forall (λ e, allowed e = true) es →
  run rev es st = Returns st' →
  kept_by R (nodes st) (nodes st').
Proof.
  intros Hrefl Htrans Htouch Hrev Hes. revert st.
  induction Hes as [|e es He Hes IH]; intros st Hrun.
  - injection Hrun as <-. by apply kept_by_refl.
  - simpl in Hrun. destruct (step rev e st) as [st1|] eqn:Hstep; [|done].
    simpl in Hrun.
    destruct (step_nodes rev e st st1 Hrev Hstep)
      as (ns1 & added & Hn & Ht & _).
    eapply kept_by_trans; [done| |by apply IH].
    exists ns1, added. split; [done|].
    eapply Forall2_impl; [exact Ht|]. intros a b. by apply Htouch.
Qed.

Lemma run_length (rev : Revision) (es : list Event) (st st' : State) :
  shipped rev → run rev es st = Returns st' →
  length (nodes st') ≤ length (nodes st) + length (filter (λ e, is_drop e = true) es).
Proof.
  intros Hrev. revert st. induction es as [|e es IH]; intros st Hrun.
  - injection Hrun as <-. simpl. lia.
  - simpl in Hrun. destruct (step rev e st) as [st1|] eqn:Hstep; [|done].
    simpl in Hrun. apply IH in Hrun.
    destruct (step_nodes rev e st st1 Hrev Hstep)
      as (ns1 & added & Hn & Ht & Hadd & _).
    apply Forall2_length in Ht. rewrite Hn, length_app in Hrun.
    rewrite filter_cons. destruct (is_drop e); case_decide; simpl; try done; lia.
Qed.

Lemma touch_same_identity (e : Event) (a b : Node) :
  touch e a b → same_identity a b.
Proof. by intros []. Qed.

Lemma same_identity_trans (x y z : Node) :
  same_identity x y → same_identity y z → same_identity x z.
Proof.
  intros (? & ? & ? & ?) (? & ? & ? & ?). repeat split; congruence.
Qed.

(** X1. Over any session of either revision, from any state: the nodes of
    the graph stay where they are in the list, none is removed, each keeps
    its id, type, tool name and position, and the list grows by at most one
    node per drop. *)
Theorem session_never_removes_or_renames_a_node
    (rev : Revision) (es : list Event) (st st' : State) :
  shipped rev → run rev es st = Returns st' →
  length (nodes st') ≤ length (nodes st) + length (filter (λ e, is_drop e = true) es)
  ∧ ∀ i node, nodes st !! i = Some node →
      ∃ node', nodes st' !! i = Some node' ∧ same_identity node node'.
Proof.
  intros Hrev Hrun. split; [by eapply run_length|].
  intros i node. apply kept_by_lookup.
  apply (run_kept same_identity (λ _, true) rev es st st'); try done.
  - apply same_identity_trans.
  - intros e a b _. apply touch_same_identity.
  - by apply Forall_true.
Qed.

(** X2. Over any session of either revision in which no parameter form
    is submitted, every node of the graph keeps its data, tool name and
    stored parameters, whatever else happens (status events, executions,
    drops, edits typed in the modal, a cancel). *)
Theorem only_a_submit_changes_parameters
    (rev : Revision) (es : list Event) (st st' : State) :
  shipped rev → Forall (λ e, is_submit e = false) es →
  run rev es st = Returns st' →
  ∀ i node, nodes st !! i = Some node →
    ∃ node', nodes st' !! i = Some node' ∧ data node' = data node.
Proof.
  intros Hrev Hes Hrun i node Hi.
  assert (kept_by same_data (nodes st) (nodes st')) as Hkept.
  { apply (run_kept same_data (λ e, negb (is_submit e)) rev es st st');
      try done.
    - unfold same_data. congruence.
    - intros e a b He [n | c n Hp Hc | p n Hs]; try done.
      by rewrite Hs in He.
    - eapply Forall_impl; [exact Hes|]. by intros e ->. }
  destruct (kept_by_lookup _ _ _ i node Hkept Hi) as (node' & Hi' & Hd).
  by exists node'.
Qed.

(** X3. Over any session of either revision without status events and
    without an execute, every node of the graph keeps its style: neither
    the editor, nor a drop, nor a connect, nor a save repaints a node. *)
Theorem only_status_events_change_style
    (rev : Revision) (es : list Event) (st st' : State) :
  shipped rev → Forall (λ e, paints e = false) es →
  run rev es st = Returns st' →
  ∀ i node, nodes st !! i = Some node →
    ∃ node', nodes st' !! i = Some node' ∧ style node' = style node.
Proof.
  intros Hrev Hes Hrun i node Hi.
  assert (kept_by same_style (nodes st) (nodes st')) as Hkept.
  { apply (run_kept same_style (λ e, negb (paints e)) rev es st st');
      try done.
    - unfold same_style. congruence.
    - intros e a b He [n | c n Hp Hc | p n Hs]; try done.
      by rewrite Hp in He.
    - eapply Forall_impl; [exact Hes|]. by intros e ->. }
  destruct (kept_by_lookup _ _ _ i node Hkept Hi) as (node' & Hi' & Hs).
  by exists node'.
Qed.

(** * The status overlay: how events compose *)

Lemma with_backgroundColor_twice (c1 c2 : JsVal) (node : Node) :
  with_backgroundColor c2 (with_backgroundColor c1 node)
  = with_backgroundColor c2 node.
Proof.
  unfold with_backgroundColor. simpl. by rewrite insert_insert_eq.
Qed.

Lemma setNodes_setNodes (f g : list Node → list Node) (st : State) :
  setNodes g (setNodes f st) = setNodes (g ∘ f) st.
Proof. done. Qed.

Lemma setNodes_ext (f g : list Node → list Node) (st : State) :
  f (nodes st) = g (nodes st) → setNodes f st = setNodes g st.
Proof. intros Hfg. unfold setNodes. by rewrite Hfg. Qed.

Lemma map_map_ext {A} (f g h : A → A) (l : list A) :
  (∀ a, g (f a) = h a) → map g (map f l) = map h l.
Proof. intros Hfg. rewrite map_map. apply map_ext. auto. Qed.


(** X5. Status events for two different ids commute: the state they
    leave does not depend on the order in which they arrive. *)
Theorem status_events_for_different_ids_commute
    (rev : Revision) (id1 id2 s1 s2 : JsVal) (st : State) :
  id1 ≠ id2 →
  run rev [NodeProcessing id1 s1; NodeProcessing id2 s2] st
  = run rev [NodeProcessing id2 s2; NodeProcessing id1 s1] st.
Proof.
  intros Hne. simpl. f_equal. unfold on_node_processing.
  rewrite !setNodes_setNodes. apply setNodes_ext. simpl.
  rewrite !map_map. apply map_ext. intros node.
  destruct (strict_eq_string id1 (id node)) eqn:H1;
    destruct (strict_eq_string id2 (id node)) eqn:H2; simpl;
    rewrite ?H1, ?H2; try done.
  apply strict_eq_string_spec in H1, H2. congruence.
Qed.

Lemma complete_after_socket_event
    (rev : Revision) (e : Event) (res : JsVal) (st st1 : State) :
  is_socket e = true → step rev e st = Returns st1 →
  on_execution_complete res st1 = on_execution_complete res st.
Proof.
  intros He Hstep. destruct e; try discriminate He; simpl in Hstep;
    injection Hstep as <-; unfold on_execution_complete, on_node_processing.
  - change (setNodes ?f (setResult res (setNodes ?g st)))
      with (setNodes (f ∘ g) (setResult res st)).
    apply setNodes_ext. simpl. apply map_map_ext. intros node.
    destruct (strict_eq_string nodeId (id node)); [|done].
    apply with_backgroundColor_twice.
  - change (setNodes ?f (setResult res (setNodes ?g (setResult res0 st))))
      with (setNodes (f ∘ g) (setResult res st)).
    apply setNodes_ext. simpl. apply map_map_ext. intros node.
    apply with_backgroundColor_twice.
Qed.

Lemma socket_events_return (rev : Revision) (e : Event) (st : State) :
  is_socket e = true → ∃ st1, step rev e st = Returns st1.
Proof. destruct e; try discriminate; simpl; eauto. Qed.

(** X6. [execution_complete] wipes out whatever the socket delivered
    before it: any sequence of [node_processing] and [execution_complete]
    events followed by [execution_complete { result }] leaves the state
    that [execution_complete { result }] alone would leave. *)
Theorem execution_complete_forgets_the_run
    (rev : Revision) (es : list Event) (res : JsVal) (st : State) :
  Forall (λ e, is_socket e = true) es →
  run rev (es ++ [ExecutionComplete res]) st
  = run rev [ExecutionComplete res] st.
Proof.
  intros Hes. revert st. induction Hes as [|e es He Hes IH]; intros st.
  - done.
  - destruct (socket_events_return rev e st He) as [st1 Hstep].
    change (run rev ((e :: es) ++ [ExecutionComplete res]) st)
      with (let! st' := step rev e st in
            run rev (es ++ [ExecutionComplete res]) st').
    rewrite Hstep. simpl bind. rewrite IH. simpl. f_equal.
    by eapply complete_after_socket_event.
Qed.

(** * Executing *)

(** X7. Execute, after the query has been typed: it returns, posts
    [{ workflowId: 'workflow1', input }] with the text typed last, empties
    the result, resets the colour of every node and keeps each node's id,
    type, data and position and the edges.  A failed request then shows
    'Error executing workflow' as result in src/FlowCanvas.js and nothing in
    the revision with validation. *)
Theorem execute_resets_and_posts_the_input
    (rev : Revision) (value : string) (st : State) :
  ∃ st', run rev [InputChange value; Execute] st = Returns st'
    ∧ posted st' = posted st ++ [ExecuteWorkflow "workflow1" value]
    ∧ result st' = JStr EmptyString
    ∧ edges st' = edges st
    ∧ (∀ node', node' ∈ nodes st' → backgroundColor node' = JUndefined)
    ∧ (∀ i node, nodes st !! i = Some node →
         ∃ node', nodes st' !! i = Some node'
           ∧ same_identity node node' ∧ data node' = data node)
    ∧ result (Canvas.executeWorkflow_settled Rejected st')
      = JStr "Error executing workflow"
    ∧ ∀ r, result (CanvasChecked.executeWorkflow_settled r st')
           = JStr EmptyString.
Proof.
  eexists. split; [reflexivity|]. simpl.
  split; [done|]. split; [done|]. split; [done|]. split; [|split].
  - intros node' Hin. apply list_elem_of_In, in_map_iff in Hin.
    destruct Hin as (node & <- & _). apply backgroundColor_with.
  - intros i node Hi. rewrite lookup_map, Hi. simpl. eexists.
    split; [reflexivity|]. by repeat split.
  - by split.
Qed.

(** * The parameter editor: whole gestures *)

Lemma run_app (rev : Revision) (es1 es2 : list Event) (st : State) :
  run rev (es1 ++ es2) st = let! st1 := run rev es1 st in run rev es2 st1.
Proof.
  revert st. induction es1 as [|e es1 IH]; intros st; simpl; [done|].
  destruct (step rev e st) as [st1|]; simpl; [apply IH | done].
Qed.

Lemma setNodeParams_twice (p q : gmap string string) (st : State) :
  setNodeParams q (setNodeParams p st) = setNodeParams q st.
Proof. done. Qed.

Arguments edit_events : simpl never.

(** Typing in the modal touches the draft and nothing else. *)
Lemma run_edit_events (rev : Revision) (edits : list (string * string))
    (st : State) :
  run rev (edit_events edits) st
  = Returns (setNodeParams (apply_edits edits (nodeParams st)) st).
Proof.
  revert st. induction edits as [|[k v] edits IH]; intros st.
  - by destruct st.
  - unfold edit_events. rewrite fmap_cons. fold (edit_events edits).
    simpl. rewrite IH. unfold handleParamChange.
    by rewrite setNodeParams_twice.
Qed.


Lemma apply_edits_last (edits : list (string * string))
    (draft : gmap string string) (k v : string) :
  apply_edits (edits ++ [(k, v)]) draft !! k = Some v.
Proof.
  unfold apply_edits. rewrite foldl_app. simpl. apply lookup_insert_eq.
Qed.


(** X9. Click a node, type any edits, press Cancel: the graph is as it
    was, and once another node is clicked nothing is left of the cancelled
    edits: the state is the one the second click alone would give. *)
Theorem cancelled_edits_leave_no_trace
    (rev : Revision) (st : State) (node other : Node)
    (edits : list (string * string)) :
  (∃ st', run rev (NodeClick node :: edit_events edits ++ [Cancel]) st
          = Returns st'
     ∧ nodes st' = nodes st ∧ edges st' = edges st ∧ showModal st' = false)
  ∧ run rev (NodeClick node :: edit_events edits ++ [Cancel; NodeClick other]) st
    = run rev [NodeClick other] st.
Proof.
  split.
  - eexists. split.
    + change (NodeClick node :: edit_events edits ++ [Cancel])
        with ([NodeClick node] ++ edit_events edits ++ [Cancel]).
      rewrite run_app. simpl. rewrite run_app, run_edit_events. simpl.
      reflexivity.
    + done.
  - change (NodeClick node :: edit_events edits ++ [Cancel; NodeClick other])
      with ([NodeClick node] ++ edit_events edits ++ [Cancel; NodeClick other]).
    rewrite run_app. simpl. rewrite run_app, run_edit_events. simpl.
    reflexivity.
Qed.


(** X11. For a selected node whose tool is neither [llm_tool] nor
    [fetch_from_rest_api_tool] validation has no rule: the submit of the
    revision with validation does exactly what the submit of
    src/FlowCanvas.js does, whatever the draft holds. *)
Theorem tools_without_rule_submit_alike
    (message : string → string) (st : State) (sel : Node) :
  selectedNode st = Some sel →
  label (data sel) ≠ JStr "llm_tool" →
  label (data sel) ≠ JStr "fetch_from_rest_api_tool" →
  step (CanvasChecked_revision message) ParamSubmit st
  = step Canvas_revision ParamSubmit st.
Proof.
  intros Hsel Hllm Hfetch. simpl.
  unfold CanvasChecked.handleParamSubmit, Canvas.handleParamSubmit,
    CanvasChecked.validateRequiredFields.
  apply strict_eq_string_false in Hllm, Hfetch.
  by rewrite Hsel, Hllm, Hfetch.
Qed.

(** * Dropping: every outcome *)

Lemma parse_step_value (p : JSON.pstate) (t : JSON.token) (v : JsVal)
    (stack : list JSON.frame) :
  JSON.parse_step p t = Some (JSON.AfterValue v stack) → v ≠ JUndefined.
Proof.
  destruct p as [s | s | s | ps s | ps k s | w [|[items | ps k] s]], t;
    simpl; intros [= <-]; discriminate.
Qed.

Lemma parse_tokens_value (p : JSON.pstate) (ts : list JSON.token) (v : JsVal) :
  (∀ w stack, p = JSON.AfterValue w stack → w ≠ JUndefined) →
  JSON.parse_tokens p ts = Some v → v ≠ JUndefined.
Proof.
  revert p. induction ts as [|t ts IH]; intros p Hp; simpl.
  - destruct p as [| | | | |w [|]]; try discriminate.
    intros [= <-]. by eapply Hp.
  - destruct (JSON.parse_step p t) as [p'|] eqn:Hstep; [|discriminate].
    apply IH. intros w stack ->. by eapply parse_step_value.
Qed.

(** [JSON.parse] never returns [undefined]. *)
Lemma parse_never_undefined (text : string) :
  JSON.parse text ≠ Returns JUndefined.
Proof.
  unfold JSON.parse. destruct (JSON.lex _ _) as [ts|]; [|discriminate].
  destruct (JSON.parse_tokens _ ts) as [v|] eqn:Hv; [|discriminate].
  intros [= ->]. eapply parse_tokens_value; [|exact Hv|done].
  intros w stack. discriminate.
Qed.

(** X12. Every outcome of a drop.  It raises [SyntaxError] exactly when
    the payload is not empty and is not JSON, and [TypeError] exactly when
    the payload is the JSON text of [null].  Otherwise it returns: the state
    it was given when the payload is empty, and else that state with
    exactly one node appended, carrying a made-up id, type [default], the
    value of [tool.name] as label, no parameter, no style, and the position
    the canvas transform gives for the pointer. *)
Theorem drop_outcomes
    (rev : Revision) (env : Env) (event : DragEvent) (st : State) :
  let payload := getData event "application/reactflow" in
  match step rev (Drop env event) st with
  | Throws SyntaxError =>
      payload ≠ EmptyString ∧ JSON.parse payload = Throws SyntaxError
  | Throws TypeError =>
      payload ≠ EmptyString ∧ JSON.parse payload = Returns JNull
  | Returns st' =>
      (payload = EmptyString ∧ st' = st)
      ∨ ∃ tool name,
          payload ≠ EmptyString ∧ JSON.parse payload = Returns tool
          ∧ get_name tool = Returns name
          ∧ st'
            = setNodes
                (λ nds,
                   nds ++ [{| id := uniqueId env; type := "default";
                              data := {| label := name; parameters := ∅ |};
                              position :=
                                screenToFlowPosition env
                                  {| x := clientX event;
                                     y := clientY event |};
                              style := None |}])
                st
  end.
Proof.
  intros payload. simpl. unfold onDrop. fold payload.
  destruct (String.eqb payload EmptyString) eqn:He.
  - apply String.eqb_eq in He. by left.
  - apply String.eqb_neq in He.
    destruct (JSON.parse payload) as [tool|e] eqn:Hp; simpl.
    + destruct tool; simpl; try (right; eexists _, _; by repeat split).
      * by destruct (parse_never_undefined payload).
      * done.
    + apply parse_throws_SyntaxError in Hp as He'. by subst e.
Qed.

(** * Connecting: the edge list *)

Lemma same_handle_refl (h : option string) : same_handle h h = true.
Proof. unfold same_handle. by rewrite bool_decide_eq_true_2. Qed.

Lemma same_handle_sym (a b : option string) :
  same_handle a b = same_handle b a.
Proof.
  unfold same_handle. rewrite (andb_comm (no_handle a)). f_equal.
  apply bool_decide_ext. split; congruence.
Qed.

Lemma same_connection_refl (e : Edge) : same_connection e e = true.
Proof.
  unfold same_connection. by rewrite !String.eqb_refl, !same_handle_refl.
Qed.

Lemma same_connection_sym (a b : Edge) :
  same_connection a b = same_connection b a.
Proof.
  unfold same_connection.
  by rewrite (String.eqb_sym (source a)), (String.eqb_sym (target a)),
    (same_handle_sym (sourceHandle a)), (same_handle_sym (targetHandle a)).
Qed.

Lemma connectionExists_false (edge : Edge) (eds : list Edge) :
  connectionExists edge eds = false ↔
  ∀ el, el ∈ eds → same_connection el edge = false.
Proof.
  unfold connectionExists. fold (same_connection).
  change (existsb _ eds) with (existsb (λ el, same_connection el edge) eds).
  induction eds as [|e eds IH]; simpl.
  - split; [|done]. intros _ el Hin. by apply elem_of_nil in Hin.
  - rewrite orb_false_iff, IH. split.
    + intros [He Hall] el [-> | Hin]%elem_of_cons; auto.
    + intros Hall. split; [apply Hall; left|].
      intros el Hin. apply Hall. by right.
Qed.

Lemma duplicate_free_snoc (eds : list Edge) (e : Edge) :
  duplicate_free eds → (∀ el, el ∈ eds → same_connection el e = false) →
  duplicate_free (eds ++ [e]).
Proof.
  induction eds as [|a eds IH]; simpl; intros Hfree Hnew.
  - split; [|done]. intros e' Hin. by apply elem_of_nil in Hin.
  - destruct Hfree as [Ha Hfree]. split.
    + intros e' [Hin | ->%list_elem_of_singleton]%elem_of_app.
      * by apply Ha.
      * apply Hnew. left.
    + apply IH; [done|]. intros el Hin. apply Hnew. by right.
Qed.

Lemma edge_of_made_by_addEdge (c : Connection) :
  conn_source c ≠ EmptyString → conn_target c ≠ EmptyString →
  made_by_addEdge (edge_of c).
Proof. by repeat split. Qed.

Lemma addEdge_keeps (c : Connection) (eds : list Edge) :
  duplicate_free eds → Forall made_by_addEdge eds →
  duplicate_free (addEdge c eds) ∧ Forall made_by_addEdge (addEdge c eds)
  ∧ eds `prefix_of` addEdge c eds.
Proof.
  intros Hfree Hmade. unfold addEdge.
  destruct (String.eqb (conn_source c) EmptyString) eqn:Hs; simpl; [done|].
  destruct (String.eqb (conn_target c) EmptyString) eqn:Ht; simpl; [done|].
  destruct (connectionExists (edge_of c) eds) eqn:Hex; [done|].
  apply String.eqb_neq in Hs, Ht. split; [|split].
  - apply duplicate_free_snoc; [done|]. by apply connectionExists_false.
  - apply Forall_app. split; [done|]. constructor; [|done].
    by apply edge_of_made_by_addEdge.
  - by apply prefix_app_r.
Qed.

Lemma step_edges (rev : Revision) (e : Event) (st st' : State) :
  shipped rev → step rev e st = Returns st' →
  edges st' = edges st
  ∨ ∃ params, e = Connect params ∧ edges st' = addEdge params (edges st).
Proof.
  intros Hrev Hstep.
  destruct e; simpl in Hstep; try (injection Hstep as <-; by left).
  - unfold onDrop in Hstep. destruct (String.eqb _ _).
    + injection Hstep as <-. by left.
    + destruct (JSON.parse _) as [tool|]; [|discriminate]. simpl in Hstep.
      destruct (get_name tool) as [name|]; [|discriminate]. simpl in Hstep.
      injection Hstep as <-. by left.
  - injection Hstep as <-. right. by exists params.
  - left. destruct Hrev as [-> | [message ->]]; simpl in Hstep.
    + unfold Canvas.handleParamSubmit in Hstep.
      destruct (selectedNode st), (nodes st); try discriminate;
        by injection Hstep as <-.
    + unfold CanvasChecked.handleParamSubmit in Hstep.
      destruct (selectedNode st) as [sel|]; [|discriminate].
      destruct (validate_verdict message (nodeParams st) (label (data sel)) st)
        as [Hv | [text Hv]]; rewrite Hv in Hstep; simpl in Hstep;
        by injection Hstep as <-.
  - left. destruct Hrev as [-> | [message ->]], r; simpl in Hstep;
      by injection Hstep as <-.
  - left. destruct Hrev as [-> | [message ->]], r; simpl in Hstep;
      by injection Hstep as <-.
Qed.

(** X13. Over any session of either revision, starting from a graph
    whose edges were made by connecting and hold no connection twice: no
    edge is ever removed or reordered, every edge has a non-empty source and
    target and the id [xy-edge__source-target] (with the handles, when
    named), and no two edges join the same source to the same target through
    the same handles. *)
Theorem edges_stay_without_duplicates
    (rev : Revision) (es : list Event) (st st' : State) :
  shipped rev → duplicate_free (edges st) → Forall made_by_addEdge (edges st) →
  run rev es st = Returns st' →
  edges st `prefix_of` edges st'
  ∧ duplicate_free (edges st')
  ∧ Forall made_by_addEdge (edges st').
Proof.
  intros Hrev. revert st. induction es as [|e es IH]; intros st Hfree Hmade Hrun.
  - by injection Hrun as <-.
  - simpl in Hrun. destruct (step rev e st) as [st1|] eqn:Hstep; [|done].
    simpl in Hrun.
    assert (edges st `prefix_of` edges st1 ∧ duplicate_free (edges st1)
            ∧ Forall made_by_addEdge (edges st1)) as (Hpre & Hfree1 & Hmade1).
    { destruct (step_edges rev e st st1 Hrev Hstep) as [-> | (params & _ & ->)];
        [done|]. destruct (addEdge_keeps params (edges st) Hfree Hmade)
        as (? & ? & ?). done. }
    destruct (IH st1 Hfree1 Hmade1 Hrun) as (Hpre' & ? & ?).
    split; [by etrans|done].
Qed.

(** X14. Connecting is idempotent: the same connection made twice in a
    row leaves the state the first one left. *)
Theorem connect_twice_is_connect_once
    (rev : Revision) (params : Connection) (st : State) :
  run rev [Connect params; Connect params] st = run rev [Connect params] st.
Proof.
  simpl. f_equal. unfold onConnect, setEdges. simpl. f_equal.
  unfold addEdge.
  destruct (String.eqb (conn_source params) EmptyString
            || String.eqb (conn_target params) EmptyString) eqn:Hempty;
    [done|].
  destruct (connectionExists (edge_of params) (edges st)) eqn:Hex;
    [by rewrite Hex|].
  assert (connectionExists (edge_of params) (edges st ++ [edge_of params])
          = true) as ->; [|done].
  apply connectionExists_spec. exists (edge_of params).
  split; [apply elem_of_app; right; apply list_elem_of_here|].
  by rewrite !same_handle_refl.
Qed.

(** * The key of the canvas *)

Lemma append_assoc (a b c : string) : (a +:+ b) +:+ c = a +:+ b +:+ c.
Proof.
  induction a as [|x a IH]; [done|].
  change (String x ((a +:+ b) +:+ c) = String x (a +:+ b +:+ c)).
  by rewrite IH.
Qed.

Lemma status_color_word (status : JsVal) :
  status_color status = "yellow" ∨ status_color status = "lightgreen"
  ∨ status_color status = "red".
Proof. unfold status_color. repeat case_match; auto. Qed.

Lemma touch_status_coloured (e : Event) (a b : Node) :
  touch e a b → status_coloured a → status_coloured b.
Proof.
  intros [n | c n _ Hc | p n _] Ha; [done| |done].
  unfold status_coloured. rewrite backgroundColor_with.
  destruct Hc as [-> | [status ->]]; [by left|].
  right. destruct (status_color_word status) as [-> | [-> | ->]]; auto.
Qed.

Lemma step_status_coloured (rev : Revision) (e : Event) (st st' : State) :
  shipped rev → step rev e st = Returns st' →
  Forall status_coloured (nodes st) → Forall status_coloured (nodes st').
Proof.
  intros Hrev Hstep Hall.
  destruct (step_nodes rev e st st' Hrev Hstep)
    as (ns1 & added & -> & Ht & _ & Hadded).
  apply Forall_app. split.
  - clear Hadded. induction Ht as [|a b l k Hab Ht IH]; [constructor|].
    apply Forall_cons in Hall as [Ha Hall].
    constructor; [by eapply touch_status_coloured | by apply IH].
  - eapply Forall_impl; [exact Hadded|]. intros node Hs. left.
    unfold backgroundColor. by rewrite Hs.
Qed.

(** Every state a session reaches from the empty canvas shows status
    colours only. *)
Lemma reachable_status_coloured (rev : Revision) (es : list Event)
    (st0 st : State) :
  shipped rev → Forall status_coloured (nodes st0) →
  run rev es st0 = Returns st → Forall status_coloured (nodes st).
Proof.
  intros Hrev. revert st0. induction es as [|e es IH]; intros st0 Hall Hrun.
  - by injection Hrun as <-.
  - simpl in Hrun. destruct (step rev e st0) as [st1|] eqn:Hstep; [|done].
    simpl in Hrun. eapply IH; [|exact Hrun].
    by eapply step_status_coloured.
Qed.

Lemma shown_colour_word (n : Node) :
  status_coloured n → colour_word (shown_colour n).
Proof.
  unfold status_coloured, shown_colour, colour_word.
  intros [-> | [-> | [-> | ->]]]; simpl; auto.
Qed.

Lemma key_part_shown (toString : number → string) (toBoolean : number → bool)
    (n : Node) :
  status_coloured n →
  key_part toString toBoolean n = Returns (id n +:+ "-" +:+ shown_colour n).
Proof.
  unfold status_coloured, key_part, shown_colour, or_value.
  by intros [-> | [-> | [-> | ->]]].
Qed.

(** In a canvas that shows status colours only the key is computed, and is
    made of the ids and the colour words. *)
Lemma reactFlowKey_text (toString : number → string)
    (toBoolean : number → bool) (ns : list Node) :
  Forall status_coloured ns →
  reactFlowKey toString toBoolean ns = Returns (key_text ns).
Proof.
  intros Hall. unfold reactFlowKey, key_text.
  assert (collect (map (key_part toString toBoolean) ns)
          = Returns (map (λ n, id n +:+ "-" +:+ shown_colour n) ns)) as ->;
    [|done].
  induction Hall as [|n ns Hn Hall IH]; [done|].
  simpl. rewrite key_part_shown by done. simpl. by rewrite IH.
Qed.

(** No colour word is the beginning of another. *)
Lemma colour_word_split (c1 c2 t1 t2 : string) :
  colour_word c1 → colour_word c2 →
  c1 +:+ t1 = c2 +:+ t2 → c1 = c2 ∧ t1 = t2.
Proof.
  intros [-> | [-> | [-> | ->]]] [-> | [-> | [-> | ->]]] Heq;
    try discriminate Heq; split; try done;
    by apply (inj (String.app _)) in Heq.
Qed.

Lemma concat_cons2 (sep x y : string) (l : list string) :
  String.concat sep (x :: y :: l) = x +:+ sep +:+ String.concat sep (y :: l).
Proof. done. Qed.

Lemma key_text_cons (n m : Node) (ns : list Node) :
  key_text (n :: m :: ns)
  = (id n +:+ "-" +:+ shown_colour n) +:+ "-" +:+ key_text (m :: ns).
Proof. done. Qed.

Lemma keys_determine_colours (ns ns' : list Node) :
  id <$> ns = id <$> ns' →
  Forall status_coloured ns → Forall status_coloured ns' →
  key_text ns = key_text ns' →
  shown_colour <$> ns = shown_colour <$> ns'.
Proof.
  revert ns'.
  induction ns as [|n ns IH]; intros [|n' ns'] Hids Hall Hall' Hkey;
    try done.
  apply Forall_cons in Hall as [Hn Hall].
  apply Forall_cons in Hall' as [Hn' Hall'].
  rewrite !fmap_cons in Hids. injection Hids as Hid Hids.
  assert (colour_word (shown_colour n)) as Hw by by apply shown_colour_word.
  assert (colour_word (shown_colour n')) as Hw' by by apply shown_colour_word.
  destruct ns as [|m ns], ns' as [|m' ns']; try done.
  - change (id n +:+ "-" +:+ shown_colour n
            = id n' +:+ "-" +:+ shown_colour n') in Hkey.
    rewrite Hid in Hkey. do 2 apply (inj (String.app _)) in Hkey.
    rewrite !fmap_cons. by rewrite Hkey.
  - rewrite !key_text_cons, !append_assoc in Hkey.
    rewrite Hid in Hkey. do 2 apply (inj (String.app _)) in Hkey.
    apply colour_word_split in Hkey as [Hc Hrest]; [|done..].
    apply (inj (String.app _)) in Hrest.
    rewrite fmap_cons, (fmap_cons _ n'), Hc. f_equal.
    by apply IH.
Qed.

Lemma colours_determine_keys (ns ns' : list Node) :
  id <$> ns = id <$> ns' →
  shown_colour <$> ns = shown_colour <$> ns' →
  key_text ns = key_text ns'.
Proof.
  unfold key_text. intros Hids Hshown. f_equal.
  revert ns' Hids Hshown.
  induction ns as [|n ns IH]; intros [|n' ns'] Hids Hshown; try done.
  rewrite !fmap_cons in Hids, Hshown.
  injection Hids as Hid Hids. injection Hshown as Hc Hshown.
  simpl. rewrite Hid, Hc. f_equal.
  by apply IH.
Qed.

Lemma touch_keeps_id (e : Event) (a b : Node) : touch e a b → id a = id b.
Proof. by intros []. Qed.

Lemma step_keeps_ids (rev : Revision) (e : Event) (st st' : State) :
  shipped rev → step rev e st = Returns st' → is_drop e = false →
  id <$> nodes st' = id <$> nodes st.
Proof.
  intros Hrev Hstep He.
  destruct (step_nodes rev e st st' Hrev Hstep)
    as (ns1 & added & -> & Ht & Hlen & _).
  rewrite He in Hlen. destruct added; [|simpl in Hlen; lia].
  rewrite app_nil_r. clear Hlen.
  induction Ht as [|a b l k Hab Ht IH]; [done|].
  rewrite !fmap_cons, IH. f_equal. symmetry. by eapply touch_keeps_id.
Qed.

(** X15. In any state a session of either revision reaches from the
    empty canvas, for any event but a drop: the key handed to React Flow is
    computed without raising before and after the event, and it is the
    same after the event as before exactly when every node shows the same
    colour as before.  So the canvas is built anew whenever a status event
    or a reset changes a colour on screen, and not otherwise. *)
Theorem canvas_key_changes_with_the_colours
    (toString : number → string) (toBoolean : number → bool)
    (rev : Revision) (es : list Event) (st : State) (e : Event) (st' : State) :
  shipped rev → run rev es initial = Returns st →
  step rev e st = Returns st' → is_drop e = false →
  ∃ key key',
    reactFlowKey toString toBoolean (nodes st) = Returns key
    ∧ reactFlowKey toString toBoolean (nodes st') = Returns key'
    ∧ (key' = key ↔ shown_colour <$> nodes st' = shown_colour <$> nodes st).
Proof.
  intros Hrev Hrun Hstep He.
  assert (Forall status_coloured (nodes st)) as Hall.
  { eapply reachable_status_coloured; [done| |exact Hrun]. constructor. }
  assert (Forall status_coloured (nodes st')) as Hall'
    by by eapply step_status_coloured.
  pose proof (step_keeps_ids rev e st st' Hrev Hstep He) as Hids.
  exists (key_text (nodes st)), (key_text (nodes st')).
  split; [by apply reactFlowKey_text|].
  split; [by apply reactFlowKey_text|].
  split.
  - by apply keys_determine_colours.
  - by apply colours_determine_keys.
Qed.

(** * Conversion to a string *)

(** Induction over the values, through arrays and objects. *)
Lemma JsVal_nested_ind (P : JsVal → Prop) :
  P JUndefined → P JNull → (∀ b, P (JBool b)) → (∀ n, P (JNum n)) →
  (∀ s, P (JStr s)) →
  (∀ items, Forall P items → P (JArr items)) →
  (∀ props, Forall (λ kv, P kv.2) props → P (JObj props)) →
  ∀ v, P v.
Proof.
  intros Hundef Hnull Hbool Hnum Hstr Harr Hobj. fix IH 1.
  intros [| | b | n | s | items | props];
    [exact Hundef | exact Hnull | apply Hbool | apply Hnum | apply Hstr | | ].
  - apply Harr. induction items as [|item items IHitems]; constructor.
    + apply IH.
    + exact IHitems.
  - apply Hobj. induction props as [|[k v] props IHprops]; constructor.
    + apply IH.
    + exact IHprops.
Qed.

(** [ToString] raises exactly on the values [unprintable] names, and then
    [TypeError]. *)
Lemma ToString_outcome (toString : number → string) (v : JsVal) :
  if unprintable v then ToString toString v = Throws TypeError
  else ∃ s, ToString toString v = Returns s.
Proof.
  induction v as [| | b | n | s | items IH | props _] using JsVal_nested_ind;
    simpl; eauto.
  - assert (if existsb unprintable items
            then collect
                   (map (λ item,
                      match item with
                      | JUndefined | JNull => Returns EmptyString
                      | _ => ToString toString item
                      end) items) = Throws TypeError
            else ∃ parts,
                   collect
                     (map (λ item,
                        match item with
                        | JUndefined | JNull => Returns EmptyString
                        | _ => ToString toString item
                        end) items) = Returns parts) as Hparts.
    { induction IH as [|item items Hitem _ IHitems]; [by exists []|].
      cbn [existsb map collect].
      destruct (unprintable item) eqn:Hu.
      - cbn [orb]. destruct item; try discriminate Hu; by rewrite Hitem.
      - cbn [orb].
        assert (∃ s, match item with
                     | JUndefined | JNull => Returns EmptyString
                     | _ => ToString toString item
                     end = Returns s) as [s ->].
        { destruct item; eauto. }
        cbn [bind]. destruct (existsb unprintable items).
        + by rewrite IHitems.
        + destruct IHitems as [parts ->]. by eexists. }
    destruct (existsb unprintable items).
    + by rewrite Hparts.
    + destruct Hparts as [parts ->]. by eexists.
  - destruct (has_own "toString" props); eauto.
Qed.

Lemma ToString_printable (toString : number → string) (v : JsVal) :
  unprintable v = false → ∃ s, ToString toString v = Returns s.
Proof.
  intros Hu. pose proof (ToString_outcome toString v) as Hv.
  by rewrite Hu in Hv.
Qed.

Lemma ToString_unprintable (toString : number → string) (v : JsVal) :
  unprintable v = true → ToString toString v = Throws TypeError.
Proof.
  intros Hu. pose proof (ToString_outcome toString v) as Hv.
  by rewrite Hu in Hv.
Qed.

(** * The schemas of the catalog *)

Lemma accepted_reads (toString : number → string) (tool : JsVal) :
  accepted tool = true →
  get_name tool = Returns (field_of "name" tool)
  ∧ get_parameters tool = Returns (field_of "parameters" tool)
  ∧ ∃ k, ToString toString (field_of "name" tool) = Returns k.
Proof.
  unfold accepted. intros [Hnull Hname]%andb_prop.
  apply negb_true_iff in Hname.
  split; [by destruct tool|]. split; [by destruct tool|].
  by apply ToString_printable.
Qed.

Lemma reduce_tools_lookup (toString : number → string)
    (toBoolean : number → bool) (tools : list JsVal)
    (acc : gmap string JsVal) :
  Forall (λ tool, accepted tool = true) tools →
  ∃ m, reduce_tools toString toBoolean acc tools = Returns m
    ∧ ∀ k, k ≠ "__proto__" →
        m !! k
        = match last (omap (schema_under toString toBoolean k) tools) with
          | Some v => Some v
          | None => acc !! k
          end.
Proof.
  intros Hall. revert acc. induction Hall as [|tool tools Htool Hall IH];
    intros acc.
  - exists acc. by split.
  - destruct (accepted_reads toString tool Htool)
      as (Hname & Hparams & key & Hkey).
    destruct (IH (if String.eqb key "__proto__" then acc
                  else <[key := or_value toBoolean
                                  (field_of "parameters" tool) (JArr [])]> acc))
      as (m & Hred & Hm).
    exists m. split.
    { simpl. rewrite Hname, Hparams. simpl. unfold assign. rewrite Hkey.
      simpl. exact Hred. }
    intros k Hk. rewrite (Hm k Hk). cbn [omap list_omap].
    unfold schema_under at 2. rewrite Hkey.
    destruct (String.eqb key k) eqn:Heq.
    + apply String.eqb_eq in Heq. subst key.
      apply String.eqb_neq in Hk. rewrite Hk, last_cons.
      destruct (last _); [done|]. by rewrite lookup_insert_eq.
    + apply String.eqb_neq in Heq.
      destruct (last _); [done|].
      destruct (String.eqb key "__proto__"); [done|].
      by rewrite lookup_insert_ne.
Qed.

Lemma reduce_tools_refused (toString : number → string)
    (toBoolean : number → bool) (tools : list JsVal)
    (acc : gmap string JsVal) :
  Exists (λ tool, accepted tool = false) tools →
  reduce_tools toString toBoolean acc tools = Throws TypeError.
Proof.
  intros Hex. revert acc.
  induction Hex as [tool tools Htool | tool tools Hex IH]; intros acc.
  - unfold accepted in Htool. apply andb_false_iff in Htool as [Hn | Hu].
    + apply negb_false_iff in Hn. by destruct tool.
    + apply negb_false_iff in Hu.
      destruct tool; try discriminate Hu. simpl. unfold assign.
      by rewrite (ToString_unprintable _ _ Hu).
  - destruct (accepted tool) eqn:Htool.
    + destruct (accepted_reads toString tool Htool)
        as (Hname & Hparams & key & Hkey).
      simpl. rewrite Hname, Hparams. simpl. unfold assign. rewrite Hkey.
      simpl. apply IH.
    + unfold accepted in Htool. apply andb_false_iff in Htool as [Hn | Hu].
      * apply negb_false_iff in Hn. by destruct tool.
      * apply negb_false_iff in Hu.
        destruct tool; try discriminate Hu. simpl. unfold assign.
        by rewrite (ToString_unprintable _ _ Hu).
Qed.

Lemma accepted_or_not (tools : list JsVal) :
  Forall (λ tool, accepted tool = true) tools
  ∨ Exists (λ tool, accepted tool = false) tools.
Proof.
  induction tools as [|tool tools [IH | IH]].
  - left. constructor.
  - destruct (accepted tool) eqn:Htool.
    + left. by constructor.
    + right. by constructor.
  - right. by constructor.
Qed.

(** X16. The table of schemas built from the catalog.  When no entry of
    the catalog is [null] or [undefined] and every entry's name can be made
    a property key, building it returns, and under each key other than
    [__proto__] the table holds what the last entry with that name gives
    for [parameters], or an empty list when that entry gives none; a key no
    entry is named after is not in the table.  When some entry is [null] or
    [undefined], or is named by an object with a property [toString] of its
    own (or by an array holding one), building it raises [TypeError]. *)
Theorem toolParameters_holds_the_last_schema
    (toString : number → string) (toBoolean : number → bool)
    (tools : list JsVal) :
  (Forall (λ tool, accepted tool = true) tools
   ∧ ∃ m, toolParameters toString toBoolean tools = Returns m
       ∧ ∀ k, k ≠ "__proto__" →
           m !! k = last (omap (schema_under toString toBoolean k) tools))
  ∨ (Exists (λ tool, accepted tool = false) tools
     ∧ toolParameters toString toBoolean tools = Throws TypeError).
Proof.
  destruct (accepted_or_not tools) as [Hall | Hex].
  - left. split; [done|].
    destruct (reduce_tools_lookup toString toBoolean tools ∅ Hall)
      as (m & Hm & Hlookup).
    exists m. split; [done|]. intros k Hk. rewrite (Hlookup k Hk).
    by destruct (last _).
  - right. split; [done|]. by apply reduce_tools_refused.
Qed.

(** * Dragging a tool and dropping it *)

(** ** Lexing what [JSON.stringify] writes *)

Lemma chars_app (a b : string) :
  list_ascii_of_string (a +:+ b)
  = list_ascii_of_string a ++ list_ascii_of_string b.
Proof.
  induction a as [|c a IH]; [done|].
  change (c :: list_ascii_of_string (a +:+ b)
          = c :: (list_ascii_of_string a ++ list_ascii_of_string b)).
  by rewrite IH.
Qed.

Lemma lex_cons (m m' : JSON.mode) (c : ascii) (ts : list JSON.token)
    (rest : list ascii) :
  JSON.lex_step m c = Some (m', ts) →
  JSON.lex m (c :: rest) = (ts ++.) <$> JSON.lex m' rest.
Proof. intros Hstep. simpl. rewrite Hstep. by destruct (JSON.lex m' rest). Qed.

Lemma lex_silent (m m' : JSON.mode) (c : ascii) (rest : list ascii) :
  JSON.lex_step m c = Some (m', []) →
  JSON.lex m (c :: rest) = JSON.lex m' rest.
Proof.
  intros Hstep. rewrite (lex_cons _ _ _ _ _ Hstep).
  by destruct (JSON.lex m' rest).
Qed.

Lemma lex_punctuation (c : ascii) (t : JSON.token) (rest : list ascii) :
  JSON.lex_top c = Some (JSON.Top, [t]) →
  JSON.lex JSON.Top (c :: rest) = (t ::.) <$> JSON.lex JSON.Top rest.
Proof. intros Htop. by rewrite (lex_cons JSON.Top JSON.Top c [t]). Qed.

(** One character of a string, as [QuoteJSONString] writes it, is read
    back as that character. *)
Lemma lex_quoted_char (c : ascii) (acc rest : list ascii) :
  JSON.lex (JSON.InString acc) (quote_char c ++ rest)
  = JSON.lex (JSON.InString (c :: acc)) rest.
Proof.
  destruct c as [b0 b1 b2 b3 b4 b5 b6 b7].
  destruct b0, b1, b2, b3, b4, b5, b6, b7;
    match goal with
    | |- context [quote_char ?c] =>
        let q := eval vm_compute in (quote_char c) in
        change (quote_char c) with q
    end;
    cbn [app];
    repeat (erewrite lex_silent by (vm_compute; reflexivity)); reflexivity.
Qed.

Lemma lex_quoted_chars (cs acc rest : list ascii) :
  JSON.lex (JSON.InString acc)
    (concat (map quote_char cs) ++ ascii_of_N 34 :: rest)
  = (JSON.TString (string_of_list_ascii (rev acc ++ cs)) ::.)
    <$> JSON.lex JSON.Top rest.
Proof.
  revert acc. induction cs as [|c cs IH]; intros acc.
  - cbn [map concat app]. rewrite app_nil_r.
    by rewrite (lex_cons (JSON.InString acc) JSON.Top (ascii_of_N 34)
                  [JSON.TString (string_of_list_ascii (rev acc))])
      by reflexivity.
  - cbn [map concat]. rewrite <- app_assoc, lex_quoted_char, IH.
    cbn [rev]. by rewrite <- app_assoc.
Qed.

(** A string literal is read back as the string. *)
Lemma lex_quoted (s : string) (rest : list ascii) :
  JSON.lex JSON.Top (list_ascii_of_string (QuoteJSONString s) ++ rest)
  = (JSON.TString s ::.) <$> JSON.lex JSON.Top rest.
Proof.
  unfold QuoteJSONString. rewrite list_ascii_of_string_of_list_ascii.
  rewrite <- app_comm_cons.
  erewrite lex_silent by (vm_compute; reflexivity).
  rewrite <- app_assoc. simpl app. rewrite lex_quoted_chars. simpl.
  by rewrite string_of_list_ascii_of_string.
Qed.

(** A word is read back once the text breaks. *)
Lemma lex_word_end (acc rest : list ascii) (t : JSON.token)
    (ts : list JSON.token) :
  JSON.word_token (rev acc) = Some t → breaks rest →
  JSON.lex JSON.Top rest = Some ts →
  JSON.lex (JSON.InWord acc) rest = Some (t :: ts).
Proof.
  intros Hword Hbreaks Hrest. destruct rest as [|c rest].
  - injection Hrest as <-. simpl. by rewrite Hword.
  - simpl in Hbreaks. simpl in *. rewrite Hbreaks, Hword. simpl.
    unfold JSON.close_with.
    destruct (JSON.lex_top c) as [[m ts0]|]; [|done].
    destruct (JSON.lex m rest) as [more|]; [|done].
    by injection Hrest as <-.
Qed.

Lemma lex_null (rest : list ascii) (ts : list JSON.token) :
  breaks rest → JSON.lex JSON.Top rest = Some ts →
  JSON.lex JSON.Top (list_ascii_of_string "null" ++ rest)
  = Some (JSON.TNull :: ts).
Proof.
  intros Hb Hrest. cbn [list_ascii_of_string app].
  repeat (erewrite lex_silent by (vm_compute; reflexivity)). by apply lex_word_end.
Qed.

Lemma lex_true (rest : list ascii) (ts : list JSON.token) :
  breaks rest → JSON.lex JSON.Top rest = Some ts →
  JSON.lex JSON.Top (list_ascii_of_string "true" ++ rest)
  = Some (JSON.TTrue :: ts).
Proof.
  intros Hb Hrest. cbn [list_ascii_of_string app].
  repeat (erewrite lex_silent by (vm_compute; reflexivity)). by apply lex_word_end.
Qed.

Lemma lex_false (rest : list ascii) (ts : list JSON.token) :
  breaks rest → JSON.lex JSON.Top rest = Some ts →
  JSON.lex JSON.Top (list_ascii_of_string "false" ++ rest)
  = Some (JSON.TFalse :: ts).
Proof.
  intros Hb Hrest. cbn [list_ascii_of_string app].
  repeat (erewrite lex_silent by (vm_compute; reflexivity)). by apply lex_word_end.
Qed.

(** ** The text of a plain value *)

Lemma last_value_absent {A} (k : string) (ps : list (string * A)) (d : A) :
  k ∉ ps.*1 → last_value k ps d = d.
Proof.
  revert d. induction ps as [|[k' v] ps IH]; intros d Hk; [done|].
  rewrite fmap_cons, not_elem_of_cons in Hk. destruct Hk as [Hne Hk].
  simpl. rewrite IH by done.
  destruct (String.eqb k' k) eqn:He; [|done].
  apply String.eqb_eq in He. by subst.
Qed.

Lemma dedupe_distinct {A} (seen : list string) (ps : list (string * A)) :
  NoDup ps.*1 → (∀ k, k ∈ seen → k ∉ ps.*1) → dedupe seen ps = ps.
Proof.
  revert seen. induction ps as [|[k v] ps IH]; intros seen Hnodup Hseen;
    [done|].
  rewrite fmap_cons in Hnodup. apply NoDup_cons in Hnodup as [Hk Hnodup].
  simpl. rewrite bool_decide_eq_false_2.
  - rewrite last_value_absent by done. f_equal. apply IH; [done|].
    intros k' [-> | Hin]%elem_of_cons; [done|].
    apply Hseen in Hin. rewrite fmap_cons, not_elem_of_cons in Hin. tauto.
  - intros Hin. apply Hseen in Hin. apply Hin. rewrite fmap_cons. left.
Qed.

Lemma own_entries_plain {A} (ps : list (string * A)) :
  plain_keys ps.*1 → own_entries ps = ps.
Proof.
  intros [Hnodup Hnamed]. unfold own_entries.
  rewrite dedupe_distinct; [|done|by intros k Hk%elem_of_nil].
  assert (omap (λ e : string * A, (λ n, (n, e)) <$> array_index e.1) ps = [])
    as ->.
  { induction ps as [|[k v] ps IH]; [done|].
    rewrite fmap_cons in Hnodup, Hnamed.
    apply NoDup_cons in Hnodup as [_ Hnodup].
    apply Forall_cons in Hnamed as [Hk Hnamed].
    simpl. simpl in Hk. rewrite Hk. simpl. by apply IH. }
  simpl. clear Hnodup.
  induction ps as [|[k v] ps IH]; [done|].
  rewrite fmap_cons in Hnamed. apply Forall_cons in Hnamed as [Hk Hnamed].
  rewrite filter_cons. simpl. rewrite decide_True by done.
  f_equal. by apply IH.
Qed.

(** What [JSON.stringify] writes for a member of an object. *)
Lemma stringify_members (toJSON : number → string)
    (props : list (string * JsVal)) :
  Forall (λ kv, is_Some (stringify toJSON kv.2)) props →
  omap (λ kt : string * option string,
          (λ t, QuoteJSONString kt.1 +:+ ":" +:+ t) <$> kt.2)
    (map (λ kv, (kv.1, stringify toJSON kv.2)) props)
  = map (λ kv, QuoteJSONString kv.1 +:+ ":"
               +:+ default "null" (stringify toJSON kv.2)) props.
Proof.
  induction 1 as [|[k v] props [text Hv] Hall IH]; [done|].
  simpl in *. rewrite Hv. simpl. by rewrite <- IH.
Qed.

Lemma stringify_object (toJSON : number → string)
    (props : list (string * JsVal)) :
  plain_keys props.*1 →
  Forall (λ kv, is_Some (stringify toJSON kv.2)) props →
  stringify toJSON (JObj props)
  = Some ("{" +:+ String.concat ","
                    (map (λ kv, QuoteJSONString kv.1 +:+ ":"
                                +:+ default "null" (stringify toJSON kv.2))
                       props)
          +:+ "}").
Proof.
  intros Hkeys Hall. cbn [stringify].
  rewrite own_entries_plain.
  - by rewrite stringify_members.
  - by rewrite <- list_fmap_compose.
Qed.

(** Induction over the plain values. *)
Lemma json_plain_ind (P : JsVal → Prop) :
  P JNull → (∀ b, P (JBool b)) → (∀ s, P (JStr s)) →
  (∀ items, Forall json_plain items → Forall P items → P (JArr items)) →
  (∀ props, plain_keys props.*1 →
            Forall (λ kv, json_plain kv.2) props →
            Forall (λ kv, P kv.2) props → P (JObj props)) →
  ∀ v, json_plain v → P v.
Proof.
  intros Hnull Hbool Hstr Harr Hobj. fix IH 1.
  intros [| | b | n | s | items | props] Hplain; try done.
  - assert (Forall json_plain items ∧ Forall P items) as [? ?];
      [|by apply Harr].
    simpl in Hplain. induction items as [|item items IHitems].
    + split; constructor.
    + destruct Hplain as [Hitem Hplain].
      destruct (IHitems Hplain). split; constructor; auto.
  - simpl in Hplain. destruct Hplain as [Hkeys Hplain].
    assert (Forall (λ kv, json_plain kv.2) props
            ∧ Forall (λ kv, P kv.2) props) as [? ?];
      [|by apply Hobj].
    clear Hkeys. induction props as [|[k v] props IHprops].
    + split; constructor.
    + destruct Hplain as [Hv Hplain].
      destruct (IHprops Hplain). split; constructor; auto.
Qed.

Lemma concat_cons1 (sep x : string) : String.concat sep [x] = x.
Proof. done. Qed.

Lemma concat_cons_map {A} (sep x : string) (f : A → string) (y : A)
    (l : list A) :
  String.concat sep (x :: map f (y :: l))
  = x +:+ sep +:+ String.concat sep (map f (y :: l)).
Proof. done. Qed.

(** The text of a plain value, followed by text that breaks, is read back
    as the value's tokens. *)
Lemma lex_stringify (toJSON : number → string) (v : JsVal) :
  json_plain v →
  ∀ rest ts, breaks rest → JSON.lex JSON.Top rest = Some ts →
  ∃ text, stringify toJSON v = Some text
    ∧ JSON.lex JSON.Top (list_ascii_of_string text ++ rest)
      = Some (tokens_of v ++ ts).
Proof.
  intros Hplain. induction Hplain as [| b | s | items _ IH | props Hkeys _ IH]
    using json_plain_ind; intros rest ts Hb Hrest.
  - exists "null". split; [done|]. by apply lex_null.
  - destruct b; eexists; (split; [reflexivity|]);
      [by apply lex_true | by apply lex_false].
  - eexists. split; [reflexivity|]. rewrite lex_quoted, Hrest. done.
  - exists ("[" +:+ String.concat ","
                       (map (λ item, default "null" (stringify toJSON item))
                          items)
             +:+ "]").
    split; [done|].
    rewrite !chars_app, <- !app_assoc.
    change (list_ascii_of_string "[") with ["["%char].
    change (list_ascii_of_string "]") with ["]"%char].
    cbn [app]. rewrite (lex_punctuation _ JSON.TLBracket) by reflexivity.
    cbn [tokens_of]. rewrite <- app_comm_cons, <- app_assoc. cbn [app].
    assert (JSON.lex JSON.Top
              (list_ascii_of_string
                 (String.concat ","
                    (map (λ item, default "null" (stringify toJSON item))
                       items))
               ++ "]"%char :: rest)
            = Some (join_tokens (map tokens_of items)
                    ++ JSON.TRBracket :: ts)) as ->; [|done].
    assert (JSON.lex JSON.Top ("]"%char :: rest) = Some (JSON.TRBracket :: ts))
      as Hclose.
    { rewrite (lex_punctuation _ JSON.TRBracket) by reflexivity.
      by rewrite Hrest. }
    clear Hb Hrest. induction IH as [|item items Hitem _ IHitems]; [done|].
    destruct items as [|item' items].
    + destruct (Hitem ("]"%char :: rest) (JSON.TRBracket :: ts))
        as (text & Htext & Hlex); [done..|].
      cbn [map]. rewrite concat_cons1, Htext. done.
    + destruct (Hitem (","%char
                       :: list_ascii_of_string
                            (String.concat ","
                               (map (λ item,
                                  default "null" (stringify toJSON item))
                                  (item' :: items)))
                          ++ "]"%char :: rest)
                  (JSON.TComma
                   :: join_tokens (map tokens_of (item' :: items))
                      ++ JSON.TRBracket :: ts))
        as (text & Htext & Hlex); [done| |].
      { rewrite (lex_punctuation _ JSON.TComma) by reflexivity.
        by rewrite IHitems. }
      rewrite (map_cons _ item), concat_cons_map, Htext.
      rewrite !chars_app, <- !app_assoc.
      change (list_ascii_of_string ",") with [","%char]. cbn [app].
      change (default "null" (Some text)) with text.
      rewrite Hlex. cbn [map join_tokens]. by rewrite <- app_assoc.
  - assert (Forall (λ kv, is_Some (stringify toJSON kv.2)) props) as Hsome.
    { eapply Forall_impl; [exact IH|]. intros kv Hkv.
      destruct (Hkv [] []) as (text & -> & _); done. }
    eexists. split; [by apply stringify_object|].
    rewrite !chars_app, <- !app_assoc.
    change (list_ascii_of_string "{") with ["{"%char].
    change (list_ascii_of_string "}") with ["}"%char].
    cbn [app]. rewrite (lex_punctuation _ JSON.TLBrace) by reflexivity.
    cbn [tokens_of]. rewrite <- app_comm_cons, <- app_assoc. cbn [app].
    assert (JSON.lex JSON.Top
              (list_ascii_of_string
                 (String.concat ","
                    (map (λ kv, QuoteJSONString kv.1 +:+ ":"
                                +:+ default "null" (stringify toJSON kv.2))
                       props))
               ++ "}"%char :: rest)
            = Some (join_tokens
                      (map (λ kv, JSON.TString kv.1 :: JSON.TColon
                                  :: tokens_of kv.2) props)
                    ++ JSON.TRBrace :: ts)) as ->; [|done].
    assert (JSON.lex JSON.Top ("}"%char :: rest) = Some (JSON.TRBrace :: ts))
      as Hclose.
    { rewrite (lex_punctuation _ JSON.TRBrace) by reflexivity.
      by rewrite Hrest. }
    clear Hb Hrest Hkeys Hsome.
    induction IH as [|[k v] props Hv _ IHprops]; [done|].
    simpl in Hv. destruct props as [|kv' props].
    + destruct (Hv ("}"%char :: rest) (JSON.TRBrace :: ts))
        as (text & Htext & Hlex); [done..|].
      cbn [map]. rewrite concat_cons1. cbn [fst snd]. rewrite Htext.
      change (default "null" (Some text)) with text. rewrite !chars_app, <- !app_assoc, lex_quoted.
      change (list_ascii_of_string ":") with [":"%char]. cbn [app].
      rewrite (lex_punctuation _ JSON.TColon) by reflexivity.
      rewrite Hlex. done.
    + destruct (Hv (","%char
                    :: list_ascii_of_string
                         (String.concat ","
                            (map (λ kv, QuoteJSONString kv.1 +:+ ":"
                                        +:+ default "null"
                                              (stringify toJSON kv.2))
                               (kv' :: props)))
                       ++ "}"%char :: rest)
                  (JSON.TComma
                   :: join_tokens
                        (map (λ kv, JSON.TString kv.1 :: JSON.TColon
                                    :: tokens_of kv.2) (kv' :: props))
                      ++ JSON.TRBrace :: ts))
        as (text & Htext & Hlex); [done| |].
      { rewrite (lex_punctuation _ JSON.TComma) by reflexivity.
        by rewrite IHprops. }
      rewrite (map_cons _ (k, v)), concat_cons_map. cbn [fst snd].
      rewrite Htext. change (default "null" (Some text)) with text.
      rewrite !chars_app, <- !app_assoc, lex_quoted.
      change (list_ascii_of_string ":") with [":"%char].
      change (list_ascii_of_string ",") with [","%char]. cbn [app].
      rewrite (lex_punctuation _ JSON.TColon) by reflexivity.
      rewrite Hlex. cbn [map join_tokens fst snd].
      by rewrite <- !app_comm_cons, <- app_assoc.
Qed.

(** ** Parsing the tokens of a plain value *)

Lemma parse_tokens_cons (p p' : JSON.pstate) (t : JSON.token)
    (ts : list JSON.token) :
  JSON.parse_step p t = Some p' →
  JSON.parse_tokens p (t :: ts) = JSON.parse_tokens p' ts.
Proof. intros Hstep. simpl. by rewrite Hstep. Qed.

(** The tokens of a plain value begin with a token that starts a value, so
    just after an opening bracket they are read as an element. *)
Lemma tokens_of_start (v : JsVal) (stack : list JSON.frame)
    (rest : list JSON.token) :
  json_plain v →
  JSON.parse_tokens (JSON.ArrOpened stack) (tokens_of v ++ rest)
  = JSON.parse_tokens (JSON.ExpectValue (JSON.InArr [] :: stack))
      (tokens_of v ++ rest).
Proof. destruct v as [| | [] | | | |]; done. Qed.

Lemma parse_items (items : list JsVal) :
  items ≠ [] → Forall reads_back items →
  ∀ acc stack rest,
    JSON.parse_tokens (JSON.ExpectValue (JSON.InArr acc :: stack))
      (join_tokens (map tokens_of items) ++ JSON.TRBracket :: rest)
    = JSON.parse_tokens (JSON.AfterValue (JArr (rev acc ++ items)) stack) rest.
Proof.
  intros Hne Hall. induction Hall as [|x items Hx Hall IH]; [done|].
  intros acc stack rest. destruct items as [|y items].
  - cbn [map join_tokens]. rewrite Hx.
    rewrite (parse_tokens_cons _
               (JSON.AfterValue (JArr (rev (x :: acc))) stack)) by done.
    done.
  - rewrite (map_cons _ x).
    change (join_tokens (tokens_of x :: map tokens_of (y :: items)))
      with (tokens_of x
            ++ JSON.TComma :: join_tokens (map tokens_of (y :: items))).
    rewrite <- app_assoc, Hx. rewrite <- app_comm_cons.
    rewrite (parse_tokens_cons _
               (JSON.ExpectValue (JSON.InArr (x :: acc) :: stack))) by done.
    rewrite IH by done. cbn [rev]. by rewrite <- app_assoc.
Qed.

Lemma parse_members (props : list (string * JsVal)) :
  props ≠ [] → Forall (λ kv, reads_back kv.2) props →
  ∀ acc stack rest,
    JSON.parse_tokens (JSON.ExpectKey acc stack)
      (join_tokens
         (map (λ kv, JSON.TString kv.1 :: JSON.TColon :: tokens_of kv.2)
            props)
       ++ JSON.TRBrace :: rest)
    = JSON.parse_tokens (JSON.AfterValue (JObj (rev acc ++ props)) stack) rest.
Proof.
  intros Hne Hall. induction Hall as [|[k v] props Hv Hall IH]; [done|].
  intros acc stack rest. simpl in Hv. destruct props as [|kv props].
  - cbn [map join_tokens fst snd]. rewrite <- !app_comm_cons.
    rewrite (parse_tokens_cons _ (JSON.ExpectColon acc k stack)) by done.
    rewrite (parse_tokens_cons _
               (JSON.ExpectValue (JSON.InObj acc k :: stack))) by done.
    rewrite Hv.
    rewrite (parse_tokens_cons _
               (JSON.AfterValue (JObj (rev ((k, v) :: acc))) stack)) by done.
    done.
  - rewrite (map_cons _ (k, v)).
    change (join_tokens (?m :: map ?f (kv :: props)))
      with (m ++ JSON.TComma :: join_tokens (map f (kv :: props))).
    cbn [fst snd]. rewrite <- !app_comm_cons.
    rewrite (parse_tokens_cons _ (JSON.ExpectColon acc k stack)) by done.
    rewrite (parse_tokens_cons _
               (JSON.ExpectValue (JSON.InObj acc k :: stack))) by done.
    rewrite <- app_assoc, Hv. rewrite <- app_comm_cons.
    rewrite (parse_tokens_cons _ (JSON.ExpectKey ((k, v) :: acc) stack))
      by done.
    rewrite IH by done. cbn [rev]. by rewrite <- app_assoc.
Qed.

Lemma parse_tokens_of (v : JsVal) : json_plain v → reads_back v.
Proof.
  intros Hplain.
  induction Hplain as [| b | s | items Hitems IH | props Hkeys Hprops IH]
    using json_plain_ind; intros stack rest.
  - done.
  - by destruct b.
  - done.
  - cbn [tokens_of]. rewrite <- app_comm_cons.
    rewrite (parse_tokens_cons _ (JSON.ArrOpened stack)) by done.
    rewrite <- app_assoc. cbn [app].
    destruct items as [|item items]; [done|].
    assert (JSON.parse_tokens (JSON.ArrOpened stack)
              (join_tokens (map tokens_of (item :: items))
               ++ JSON.TRBracket :: rest)
            = JSON.parse_tokens (JSON.ExpectValue (JSON.InArr [] :: stack))
                (join_tokens (map tokens_of (item :: items))
                 ++ JSON.TRBracket :: rest)) as ->.
    { apply Forall_cons in Hitems as [Hitem _].
      destruct items as [|item' items].
      - cbn [map join_tokens]. by apply tokens_of_start.
      - rewrite (map_cons _ item).
        change (join_tokens (?m :: map ?f (item' :: items)))
          with (m ++ JSON.TComma :: join_tokens (map f (item' :: items))).
        rewrite <- app_assoc. by apply tokens_of_start. }
    by rewrite parse_items.
  - cbn [tokens_of]. rewrite <- app_comm_cons.
    rewrite (parse_tokens_cons _ (JSON.ObjOpened stack)) by done.
    rewrite <- app_assoc. cbn [app].
    destruct props as [|[k v] props]; [done|].
    assert (∀ ts, JSON.parse_tokens (JSON.ObjOpened stack)
                    (JSON.TString k :: ts)
                  = JSON.parse_tokens (JSON.ExpectKey [] stack)
                      (JSON.TString k :: ts)) as Hfirst by done.
    etrans;
      [|by apply (parse_members ((k, v) :: props) ltac:(done) IH [] stack rest)].
    destruct props as [|kv props].
    + cbn [map join_tokens fst snd]. rewrite <- !app_comm_cons.
      apply Hfirst.
    + rewrite (map_cons _ (k, v)).
      change (join_tokens (?m :: map ?f (kv :: props)))
        with (m ++ JSON.TComma :: join_tokens (map f (kv :: props))).
      cbn [fst snd]. rewrite <- !app_comm_cons. apply Hfirst.
Qed.

(** [JSON.parse] gives back a plain value from the text [JSON.stringify]
    writes for it. *)
Lemma parse_stringify (toJSON : number → string) (v : JsVal) :
  json_plain v →
  ∃ text, stringify toJSON v = Some text ∧ JSON.parse text = Returns v.
Proof.
  intros Hplain.
  destruct (lex_stringify toJSON v Hplain [] []) as (text & Htext & Hlex);
    [done..|].
  exists text. split; [done|]. unfold JSON.parse.
  rewrite app_nil_r in Hlex. rewrite Hlex.
  rewrite (parse_tokens_of v Hplain [] []). done.
Qed.

Lemma stringify_not_empty (toJSON : number → string) (v : JsVal)
    (text : string) :
  json_plain v → stringify toJSON v = Some text → text ≠ EmptyString.
Proof.
  destruct v as [| | [] | | s | |]; try done; by intros _ [= <-].
Qed.

(** X17. Drag a tool of the palette and drop it on the canvas.  For
    every tool that is an object made of strings, booleans, [null], arrays
    and objects (keys pairwise distinct, none an array index), whatever the
    transfer store held before: the text [onDragStart] stores parses back to
    the tool, [effectAllowed] is 'move', and the drop returns with exactly
    one node appended, labelled with the tool's [name], without parameters
    and without style, every node already there and everything else in the
    state being left as it was. *)
Theorem drag_then_drop_adds_the_tool
    (toJSON : number → string) (rev : Revision) (env : Env)
    (start : DragEvent) (x y : number) (props : list (string * JsVal))
    (st : State) :
  json_plain (JObj props) →
  let dragged := onDragStart toJSON start (JObj props) in
  dragged.2 = "move"
  ∧ JSON.parse (getData dragged.1 "application/reactflow")
    = Returns (JObj props)
  ∧ step rev (Drop env (drop_of dragged.1 x y)) st
    = Returns
        (setNodes
           (λ nds,
              nds ++ [{| id := uniqueId env; type := "default";
                         data := {| label := lookup_prop "name" props;
                                    parameters := ∅ |};
                         position :=
                           screenToFlowPosition env {| x := x; y := y |};
                         style := None |}])
           st).
Proof.
  intros Hplain dragged.
  destruct (parse_stringify toJSON (JObj props) Hplain)
    as (text & Htext & Hparse).
  assert (getData dragged.1 "application/reactflow" = text) as Hdata.
  { unfold dragged, onDragStart, getData. cbn [fst dataTransfer].
    rewrite lookup_insert_eq, Htext. done. }
  split; [done|]. split; [by rewrite Hdata|].
  cbn [step]. unfold onDrop.
  change (getData (drop_of dragged.1 x y) "application/reactflow")
    with (getData dragged.1 "application/reactflow").
  rewrite Hdata.
  assert (String.eqb text EmptyString = false) as ->.
  { apply String.eqb_neq. by eapply stringify_not_empty. }
  rewrite Hparse. done.
Qed.

(** * Saving, and what can raise *)


Lemma step_modal_consistent (rev : Revision) (e : Event) (st st' : State) :
  shipped rev → step rev e st = Returns st' →
  modal_consistent st → modal_consistent st'.
Proof.
  unfold modal_consistent. intros Hrev Hstep Hst.
  destruct e; simpl in Hstep; try (injection Hstep as <-; by simpl).
  - unfold onDrop in Hstep. destruct (String.eqb _ _).
    + by injection Hstep as <-.
    + destruct (JSON.parse _) as [tool|]; [|discriminate]. simpl in Hstep.
      destruct (get_name tool) as [name|]; [|discriminate]. simpl in Hstep.
      by injection Hstep as <-.
  - destruct Hrev as [-> | [message ->]]; simpl in Hstep.
    + unfold Canvas.handleParamSubmit in Hstep.
      destruct (selectedNode st), (nodes st); try discriminate;
        by injection Hstep as <-.
    + unfold CanvasChecked.handleParamSubmit in Hstep.
      destruct (selectedNode st) as [sel|] eqn:Hsel; [|discriminate].
      destruct (validate_verdict message (nodeParams st) (label (data sel)) st)
        as [Hv | [text Hv]]; rewrite Hv in Hstep; simpl in Hstep;
        injection Hstep as <-; simpl; [done|]. by rewrite Hsel.
  - destruct Hrev as [-> | [message ->]], r; simpl in Hstep;
      by injection Hstep as <-.
  - destruct Hrev as [-> | [message ->]], r; simpl in Hstep;
      by injection Hstep as <-.
Qed.

Lemma run_modal_consistent (rev : Revision) (es : list Event) (st st' : State) :
  shipped rev → run rev es st = Returns st' →
  modal_consistent st → modal_consistent st'.
Proof.
  intros Hrev. revert st. induction es as [|e es IH]; intros st Hrun Hst.
  - by injection Hrun as <-.
  - simpl in Hrun. destruct (step rev e st) as [st1|] eqn:Hstep; [|done].
    simpl in Hrun. eapply IH; [exact Hrun|].
    by eapply step_modal_consistent.
Qed.

(** The listener of [node_processing], whole: it raises [TypeError] when
    the payload is [null] or [undefined] or when one of the two values of
    the log line cannot be made a string, and else updates the state. *)
Lemma deliver_node_processing (toString : number → string) (rev : Revision)
    (payload : JsVal) (st : State) :
  deliver toString rev (node_processing payload) st
  = if nullish payload || unprintable (field_of "nodeId" payload)
       || unprintable (field_of "status" payload)
    then Throws TypeError
    else Returns (on_node_processing (field_of "nodeId" payload)
                    (field_of "status" payload) st).
Proof.
  destruct (nullish payload) eqn:Hnull; [by destruct payload|].
  assert (get_field "nodeId" payload = Returns (field_of "nodeId" payload))
    as Hid by by destruct payload.
  assert (get_field "status" payload = Returns (field_of "status" payload))
    as Hstatus by by destruct payload.
  unfold deliver, log_line. rewrite Hid, Hstatus. cbn [bind orb].
  destruct (unprintable (field_of "nodeId" payload)) eqn:Hn.
  { by rewrite (ToString_unprintable _ _ Hn). }
  destruct (ToString_printable toString _ Hn) as [n ->]. cbn [bind orb].
  destruct (unprintable (field_of "status" payload)) eqn:Hs.
  { by rewrite (ToString_unprintable _ _ Hs). }
  by destruct (ToString_printable toString _ Hs) as [s ->].
Qed.

Lemma deliver_execution_complete (toString : number → string)
    (rev : Revision) (payload : JsVal) (st : State) :
  deliver toString rev (execution_complete payload) st
  = if nullish payload then Throws TypeError
    else Returns (on_execution_complete (field_of "result" payload) st).
Proof. by destruct payload. Qed.

(** X19. What can raise, in any state a session of either revision
    reaches from the empty canvas.  A shown modal always has its node, so
    Save of the modal returns when it is pressed while the modal is shown,
    and so does every other gesture or reply that is not a drop.  A
    listener of the socket raises [TypeError] exactly when its payload is
    [null] or [undefined] and, for [node_processing], when [nodeId] or
    [status] cannot be written in the log line (an object with a property
    [toString] of its own, or an array holding one); otherwise it updates
    the state by the fields of the payload, a missing field counting as
    [undefined]. *)
Theorem handlers_that_can_raise
    (toString : number → string) (rev : Revision) (es : list Event)
    (st : State) :
  shipped rev → run rev es initial = Returns st →
  (showModal st = true → is_Some (selectedNode st))
  ∧ (∀ e, is_drop e = false → is_socket e = false →
       (is_submit e = true → showModal st = true) →
       ∃ st', step rev e st = Returns st')
  ∧ (∀ payload,
       deliver toString rev (node_processing payload) st
       = if nullish payload || unprintable (field_of "nodeId" payload)
            || unprintable (field_of "status" payload)
         then Throws TypeError
         else Returns (on_node_processing (field_of "nodeId" payload)
                         (field_of "status" payload) st))
  ∧ (∀ payload,
       deliver toString rev (execution_complete payload) st
       = if nullish payload then Throws TypeError
         else Returns (on_execution_complete (field_of "result" payload) st)).
Proof.
  intros Hrev Hrun.
  assert (modal_consistent st) as Hmodal.
  { eapply run_modal_consistent; [done|exact Hrun|]. by intros ?. }
  split; [done|]. split; [|split].
  - intros e Hdrop Hsocket Hsubmit.
    destruct e; try discriminate Hdrop; try discriminate Hsocket;
      simpl; eauto.
    destruct (Hmodal (Hsubmit eq_refl)) as [sel Hsel].
    destruct Hrev as [-> | [message ->]]; simpl.
    + unfold Canvas.handleParamSubmit. rewrite Hsel. eauto.
    + unfold CanvasChecked.handleParamSubmit. rewrite Hsel.
      destruct (CanvasChecked.validateRequiredFields _ _ _ _) as [[] st1];
        simpl; eauto.
  - intros payload. apply deliver_node_processing.
  - intros payload. apply deliver_execution_complete.
Qed.

(** A catalog with an entry named by an object that has a property
    [toString]: the table is not built. *)
Example odd_catalog_is_refused :
  toolParameters plain_digits nonzero odd_catalog = Throws TypeError.
Proof. reflexivity. Qed.

(** * The session theorems at sample inputs *)

Lemma Canvas_shipped : shipped Canvas_revision.
Proof. by left. Defined.

Lemma session_never_removes_or_renames_a_node_witness :
  shipped Canvas_revision
  ∧ ∃ st', run Canvas_revision busy_session one_node_graph = Returns st'
      ∧ length (nodes st') ≤ 1 + 2
      ∧ ∃ node', nodes st' !! 0 = Some node'
          ∧ same_identity search_node node'.
Proof.
  split; [exact Canvas_shipped|]. eexists. split; [reflexivity|].
  destruct (session_never_removes_or_renames_a_node Canvas_revision
              busy_session one_node_graph _ Canvas_shipped eq_refl)
    as [Hlen Hkept].
  split; [exact Hlen|]. exact (Hkept 0 search_node eq_refl).
Defined.

Lemma only_a_submit_changes_parameters_witness :
  Forall (λ e, is_submit e = false) busy_session
  ∧ ∃ st', run Canvas_revision busy_session one_node_graph = Returns st'
      ∧ ∃ node', nodes st' !! 0 = Some node'
          ∧ data node' = data search_node.
Proof.
  assert (Forall (λ e, is_submit e = false) busy_session) as Hes
    by (repeat constructor).
  split; [exact Hes|]. eexists. split; [reflexivity|].
  exact (only_a_submit_changes_parameters Canvas_revision busy_session
           one_node_graph _ Canvas_shipped Hes eq_refl 0 search_node eq_refl).
Defined.

Lemma only_status_events_change_style_witness :
  Forall (λ e, paints e = false) quiet_session
  ∧ ∃ st', run Canvas_revision quiet_session
             (on_node_processing (JStr "n3") (JStr "failed") one_node_graph)
           = Returns st'
      ∧ ∃ node', nodes st' !! 0 = Some node'
          ∧ style node' = Some {[ "backgroundColor" := JStr "red" ]}.
Proof.
  assert (Forall (λ e, paints e = false) quiet_session) as Hes
    by (repeat constructor).
  split; [exact Hes|]. eexists. split; [reflexivity|].
  exact (only_status_events_change_style Canvas_revision quiet_session
           (on_node_processing (JStr "n3") (JStr "failed") one_node_graph)
           _ Canvas_shipped Hes eq_refl 0 _ eq_refl).
Defined.

Lemma status_events_for_different_ids_commute_witness :
  JStr "n3" ≠ JStr "n1"
  ∧ run Canvas_revision
      [NodeProcessing (JStr "n3") (JStr "completed");
       NodeProcessing (JStr "n1") (JStr "processing")] one_node_graph
    = run Canvas_revision
        [NodeProcessing (JStr "n1") (JStr "processing");
         NodeProcessing (JStr "n3") (JStr "completed")] one_node_graph.
Proof.
  assert (JStr "n3" ≠ JStr "n1") as Hne by discriminate.
  split; [exact Hne|].
  exact (status_events_for_different_ids_commute Canvas_revision (JStr "n3")
           (JStr "n1") (JStr "completed") (JStr "processing") one_node_graph
           Hne).
Defined.

Lemma execution_complete_forgets_the_run_witness :
  Forall (λ e, is_socket e = true) socket_burst
  ∧ run Canvas_revision (socket_burst ++ [ExecutionComplete (JStr "done")])
      one_node_graph
    = run Canvas_revision [ExecutionComplete (JStr "done")] one_node_graph.
Proof.
  assert (Forall (λ e, is_socket e = true) socket_burst) as Hes
    by (repeat constructor).
  split; [exact Hes|].
  exact (execution_complete_forgets_the_run Canvas_revision socket_burst
           (JStr "done") one_node_graph Hes).
Defined.



Lemma tools_without_rule_submit_alike_witness :
  selectedNode search_edited = Some search_node
  ∧ label (data search_node) ≠ JStr "llm_tool"
  ∧ label (data search_node) ≠ JStr "fetch_from_rest_api_tool"
  ∧ step (CanvasChecked_revision engine_message) ParamSubmit search_edited
    = step Canvas_revision ParamSubmit search_edited.
Proof.
  assert (label (data search_node) ≠ JStr "llm_tool") as Hllm by discriminate.
  assert (label (data search_node) ≠ JStr "fetch_from_rest_api_tool")
    as Hfetch by discriminate.
  split; [reflexivity|]. split; [exact Hllm|]. split; [exact Hfetch|].
  exact (tools_without_rule_submit_alike engine_message search_edited
           search_node eq_refl Hllm Hfetch).
Defined.

Lemma edges_stay_without_duplicates_witness :
  shipped Canvas_revision
  ∧ duplicate_free (edges initial)
  ∧ Forall made_by_addEdge (edges initial)
  ∧ ∃ st', run Canvas_revision busy_session initial = Returns st'
      ∧ edge_id <$> edges st' = ["xy-edge__a-b"; "xy-edge__b-a"]
      ∧ duplicate_free (edges st').
Proof.
  assert (duplicate_free (edges initial)) as Hfree by exact I.
  assert (Forall made_by_addEdge (edges initial)) as Hmade by constructor.
  split; [exact Canvas_shipped|]. split; [exact Hfree|].
  split; [exact Hmade|]. eexists. split; [reflexivity|].
  split; [reflexivity|].
  exact (proj1 (proj2 (edges_stay_without_duplicates Canvas_revision
                         busy_session initial _ Canvas_shipped Hfree Hmade
                         eq_refl))).
Defined.

Lemma canvas_key_changes_with_the_colours_witness :
  shipped Canvas_revision
  ∧ ∃ st st',
      run Canvas_revision [Drop noon (drag (tool_payload "search_tool"))]
        initial = Returns st
      ∧ step Canvas_revision
          (NodeProcessing (JStr "1700000000000-4fzyo82mv") (JStr "processing"))
          st = Returns st'
      ∧ reactFlowKey plain_digits nonzero (nodes st)
        = Returns "1700000000000-4fzyo82mv-default"
      ∧ reactFlowKey plain_digits nonzero (nodes st')
        = Returns "1700000000000-4fzyo82mv-yellow"
      ∧ ∃ key key',
          reactFlowKey plain_digits nonzero (nodes st) = Returns key
          ∧ reactFlowKey plain_digits nonzero (nodes st') = Returns key'
          ∧ (key' = key
             ↔ shown_colour <$> nodes st' = shown_colour <$> nodes st).
Proof.
  split; [exact Canvas_shipped|]. eexists. eexists.
  split; [reflexivity|]. split; [reflexivity|]. split; [reflexivity|].
  split; [reflexivity|].
  apply (canvas_key_changes_with_the_colours plain_digits nonzero
           Canvas_revision [Drop noon (drag (tool_payload "search_tool"))]
           _ (NodeProcessing (JStr "1700000000000-4fzyo82mv")
                (JStr "processing")));
    [exact Canvas_shipped | reflexivity | reflexivity | reflexivity].
Defined.

Lemma catalog_tool_plain : json_plain catalog_tool.
Proof.
  repeat split; try (apply (bool_decide_unpack _); vm_compute; exact I).
Defined.

Lemma drag_then_drop_adds_the_tool_witness :
  json_plain catalog_tool
  ∧ ∃ st',
      step Canvas_revision
        (Drop noon
           (drop_of (onDragStart plain_digits foreign_drag catalog_tool).1
              hundred hundred))
        initial = Returns st'
      ∧ (label ∘ data) <$> nodes st' = [JStr "search_tool"].
Proof.
  split; [exact catalog_tool_plain|]. eexists.
  split; [exact (proj2 (proj2 (drag_then_drop_adds_the_tool plain_digits
                           Canvas_revision noon foreign_drag hundred hundred
                           _ initial catalog_tool_plain)))|reflexivity].
Defined.


Lemma handlers_that_can_raise_witness :
  shipped Canvas_revision
  ∧ ∃ st,
      run Canvas_revision
        [Drop noon (drag (tool_payload "search_tool")); NodeClick search_node]
        initial = Returns st
      ∧ showModal st = true
      ∧ (∃ st', step Canvas_revision ParamSubmit st = Returns st')
      ∧ deliver plain_digits Canvas_revision (node_processing JUndefined) st
        = Throws TypeError
      ∧ deliver plain_digits Canvas_revision
          (node_processing odd_status_message) st
        = Throws TypeError
      ∧ deliver plain_digits Canvas_revision
          (node_processing status_message) st
        = Returns (on_node_processing (JStr "n3") (JStr "completed") st)
      ∧ deliver plain_digits Canvas_revision (execution_complete (JStr "done"))
          st
        = Returns (on_execution_complete JUndefined st).
Proof.
  split; [exact Canvas_shipped|]. eexists. split; [reflexivity|].
  split; [reflexivity|].
  destruct (handlers_that_can_raise plain_digits Canvas_revision
              [Drop noon (drag (tool_payload "search_tool"));
               NodeClick search_node] _ Canvas_shipped eq_refl)
    as (_ & Hgesture & Hstatus & Hcomplete).
  split; [exact (Hgesture ParamSubmit eq_refl eq_refl (λ _, eq_refl))|].
  split; [exact (Hstatus JUndefined)|].
  split; [exact (Hstatus odd_status_message)|].
  split; [exact (Hstatus status_message) | exact (Hcomplete (JStr "done"))].
Defined.
